(** * Fontsource core: the variant-generation pipeline

    A shallow embedding of [packages/core/src] (utils.ts, filename.ts,
    subsets.ts, css.ts, processor.ts) and the properties of its
    specification.

    Conventions of the embedding.
    - A JavaScript string is a [string]: one character per UTF-16 code unit,
      for code units below 256.  The built-ins ([trim], [split],
      [toLowerCase], ...) are written out for that range in module [Js].
    - A JavaScript number is a [Z] where the source allows a sign (weights,
      axis bounds, style values) and an [N] where it counts or indexes
      (codepoints, slice indices).  Template literals render them in plain
      decimal, as JavaScript does for integers of magnitude below 10^21.
      [NaN] and fractions are outside the embedding.
    - A thrown exception is the left injection of a sum; [console.warn]
      appends to a log that is returned next to the result.
    - [Map<string, _>] read by key only is a [gmap string _]; an object or
      [Map] whose iteration order is observed is an association list.
    - [config.subsetSources] is a plain object, kept as the [gmap] of its
      own properties, which hold strings.  A property read on it finds an
      own property, or an inherited member of [Object.prototype] for a
      name of [Js.objectPrototypeMembers] that the object does not have
      itself, or nothing.  On an inherited member the call of [includes]
      throws a [TypeError]: [Subsets.generateSubsetData] is the subset
      data and the warnings of the call when it returns, and
      [Subsets.callGenerateSubsetData] is the call with its exception.
    - A line of a .nam text on which [parseInt] yields [NaN] is outside
      the embedding.  [Subsets.sourcesInScope] tells that the subsets a
      configuration requests are read without an exception and without
      [NaN]; the properties that depend on these reads have it as a
      hypothesis. *)

From Stdlib Require Import ZArith NArith Ascii String.
From Stdlib Require Import DecimalString HexadecimalString.
From Stdlib Require Import DecimalN DecimalZ HexadecimalN.
From Stdlib Require Import Sorting.Sorted Permutation.
From stdpp Require Import gmap strings list sorting.

Local Open Scope N_scope.

(** ** JavaScript built-ins used by the sources *)
Module Js.

Definition nl : ascii := "010"%char.

(** [WhiteSpace] and [LineTerminator] code units below 256: TAB, LF, VT,
    FF, CR, SP and NBSP.  [String.prototype.trim] and the regular
    expression class [\s] agree on them. *)
Definition isWhiteSpace (c : ascii) : bool :=
  match N_of_ascii c with
  | 9 | 10 | 11 | 12 | 13 | 32 | 160 => true
  | _ => false
  end.

(** [s.startsWith(p)] *)
Definition startsWith (s p : string) : bool := String.prefix p s.

(** [s.endsWith(p)] *)
Definition endsWith (s p : string) : bool :=
  String.prefix (String.rev p) (String.rev s).

(** [s.includes(p)] *)
Fixpoint includes (s p : string) : bool :=
  String.prefix p s ||
  match s with
  | EmptyString => false
  | String _ t => includes t p
  end.

(** [s.split(sep)] for a separator of one code unit. *)
Fixpoint split (sep : ascii) (s : string) : list string :=
  match s with
  | EmptyString => [EmptyString]
  | String c t =>
      if Ascii.eqb c sep then EmptyString :: split sep t
      else match split sep t with
           | [] => [String c EmptyString]
           | h :: r => String c h :: r
           end
  end.

Fixpoint trimStart (s : string) : string :=
  match s with
  | EmptyString => EmptyString
  | String c t => if isWhiteSpace c then trimStart t else s
  end.

Fixpoint trimEnd (s : string) : string :=
  match s with
  | EmptyString => EmptyString
  | String c t =>
      match trimEnd t with
      | EmptyString => if isWhiteSpace c then EmptyString else String c EmptyString
      | t' => String c t'
      end
  end.

(** [s.trim()] *)
Definition trim (s : string) : string := trimEnd (trimStart s).

Definition lowerChar (c : ascii) : ascii :=
  let n := N_of_ascii c in
  if ((65 <=? n) && (n <=? 90)) ||
     ((192 <=? n) && (n <=? 222) && negb (n =? 215))
  then ascii_of_N (n + 32) else c.

(** [s.toLowerCase()] *)
Fixpoint toLowerCase (s : string) : string :=
  match s with
  | EmptyString => EmptyString
  | String c t => String (lowerChar c) (toLowerCase t)
  end.

Definition upperChar (c : ascii) : ascii :=
  let n := N_of_ascii c in
  if (97 <=? n) && (n <=? 122) then ascii_of_N (n - 32) else c.

(** [s.toUpperCase()], on the letters a-z; the sources apply it to the
    output of [toString(16)] only. *)
Fixpoint toUpperCase (s : string) : string :=
  match s with
  | EmptyString => EmptyString
  | String c t => String (upperChar c) (toUpperCase t)
  end.

(** All code units of [s] satisfy [p]. *)
Fixpoint allChars (p : ascii → bool) (s : string) : bool :=
  match s with
  | EmptyString => true
  | String c t => p c && allChars p t
  end.

(** [arr.join(sep)] *)
Fixpoint join (sep : string) (l : list string) : string :=
  match l with
  | [] => ""
  | [x] => x
  | x :: r => x +:+ sep +:+ join sep r
  end.

(** [n.toString(16)] on a non-negative integer. *)
Definition toString16 (n : N) : string :=
  HexadecimalString.NilZero.string_of_uint (N.to_hex_uint n).

(** [`${n}`] on a non-negative integer. *)
Definition showN (n : N) : string :=
  DecimalString.NilZero.string_of_uint (N.to_uint n).

(** [`${z}`] on an integer. *)
Definition showZ (z : Z) : string :=
  DecimalString.NilZero.string_of_int (Z.to_int z).

(** [s.replace(/\s+/g, '-')]: [inRun] tells that the previous code unit
    was white space and has been replaced already. *)
Fixpoint replaceSpaceRuns (inRun : bool) (s : string) : string :=
  match s with
  | EmptyString => EmptyString
  | String c t =>
      if isWhiteSpace c
      then (if inRun then replaceSpaceRuns true t
            else String "-"%char (replaceSpaceRuns true t))
      else String c (replaceSpaceRuns false t)
  end.

(** [set.add(x)] on a [Set], kept as the list of its values in insertion
    order. *)
Definition setAdd `{EqDecision A} (set : list A) (x : A) : list A :=
  if decide (x ∈ set) then set else set ++ [x].

(** [[...new Set(arr)]]: the first occurrence of every value, in order. *)
Definition setOf `{EqDecision A} (arr : list A) : list A :=
  fold_left setAdd arr [].

(** [arr.sort((a, b) => a - b)] *)
Definition sortAscending (l : list N) : list N := merge_sort N.le l.

(** The names of the members of [Object.prototype]: what a property read
    finds on a plain object that has no own property of the name.  Each of
    them is a function or an object, so it is truthy and has no method
    [includes]. *)
Definition objectPrototypeMembers : list string :=
  ["constructor"; "hasOwnProperty"; "isPrototypeOf"; "propertyIsEnumerable";
   "toLocaleString"; "toString"; "valueOf"; "__proto__";
   "__defineGetter__"; "__defineSetter__"; "__lookupGetter__";
   "__lookupSetter__"].

End Js.

(** ** utils.ts *)
Module Utils.

Definition normalizeKebabCase (text : string) : string :=
  Js.replaceSpaceRuns false (Js.toLowerCase text).

Definition hexUpper (n : N) : string := Js.toUpperCase (Js.toString16 n).

(** The string pushed for the run [rangeStart .. rangeEnd]. *)
Definition rangeEntry (rangeStart rangeEnd : N) : string :=
  if rangeStart =? rangeEnd
  then "U+" +:+ hexUpper rangeStart
  else "U+" +:+ hexUpper rangeStart +:+ "-" +:+ hexUpper rangeEnd.

(** The [for] loop of [codepointsToRangeString]: [prev] is [sorted[i - 1]],
    [rest] is [sorted.slice(i)]; it returns [ranges] and [rangeStart] as
    they stand when the loop ends. *)
Fixpoint rangeLoop (rangeStart prev : N) (rest : list N) (ranges : list string)
  : list string * N :=
  match rest with
  | [] => (ranges, rangeStart)
  | x :: rest' =>
      if negb (x =? prev + 1)
      then rangeLoop x x rest' (ranges ++ [rangeEntry rangeStart prev])
      else rangeLoop rangeStart x rest' ranges
  end.

Definition codepointsToRangeString (codepoints : list N) : string :=
  match codepoints with
  | [] => ""
  | _ =>
      let sorted := Js.sortAscending (Js.setOf codepoints) in
      match sorted with
      | [] => ""
      | first :: rest =>
          let '(ranges, rangeStart) := rangeLoop first first rest [] in
          let lastCodepoint := List.last sorted first in
          Js.join ", " (ranges ++ [rangeEntry rangeStart lastCodepoint])
      end
  end.

(** The runs the loop closes, as pairs of their ends, with the run that is
    open when the loop ends: the pairs behind the strings of [ranges]. *)
Fixpoint runsLoop (rangeStart prev : N) (rest : list N) : list (N * N) :=
  match rest with
  | [] => [(rangeStart, prev)]
  | x :: rest' =>
      if negb (x =? prev + 1)
      then (rangeStart, prev) :: runsLoop x x rest'
      else runsLoop rangeStart x rest'
  end.

(** Ascending runs [lo .. hi] that are maximal: between two runs at least
    one number is left out. *)
Fixpoint maximalRuns (runs : list (N * N)) : Prop :=
  match runs with
  | [] => True
  | (lo, hi) :: rest =>
      lo ≤ hi ∧
      match rest with
      | [] => True
      | (lo', _) :: _ => hi + 1 < lo'
      end ∧
      maximalRuns rest
  end.

(** The digits of upper-case hexadecimal. *)
Definition isUpperHexDigit (c : ascii) : bool :=
  let n := N_of_ascii c in
  ((48 <=? n) && (n <=? 57)) || ((65 <=? n) && (n <=? 70)).

(** The argument of [extractStyleValue]: a number, or an object with a
    minimum, a default and a maximum. *)
Record RangeValue := { min : Z; defaultValue : Z; max : Z }.

Definition extractStyleValue (value : Z + RangeValue) : Z :=
  match value with
  | inl n => n
  | inr o => defaultValue o
  end.

End Utils.

(** ** types.ts *)
Inductive Format := woff | woff2.

Definition formatString (f : Format) : string :=
  match f with woff => "woff" | woff2 => "woff2" end.

(** [FontStyle] is a string type: ['normal'], ['italic'] or
    [`oblique ${number}deg`]. *)
Definition FontStyle := string.

(** ** filename.ts *)
Module Filename.

Definition normalizeStyleForFilename (style : FontStyle) : string :=
  if Js.startsWith style "oblique " then "italic" else style.

Definition sliceSuffix (sliceIndex : N) : string :=
  if 0 <? sliceIndex then "-" +:+ Js.showN sliceIndex else "".

Definition generateStaticFilename
    (familyId subset : string) (weight : Z) (style : FontStyle)
    (sliceIndex : N) (format : Format) : string :=
  let displayStyle := normalizeStyleForFilename style in
  familyId +:+ "-" +:+ subset +:+ "-" +:+ Js.showZ weight +:+ "-" +:+
  displayStyle +:+ sliceSuffix sliceIndex +:+ "." +:+ formatString format.

Definition generateVariableFilename
    (familyId subset axisKey : string) (style : FontStyle)
    (sliceIndex : N) (format : Format) : string :=
  let displayStyle := normalizeStyleForFilename style in
  familyId +:+ "-" +:+ subset +:+ "-" +:+ axisKey +:+ "-" +:+
  displayStyle +:+ sliceSuffix sliceIndex +:+ "." +:+ formatString format.

End Filename.


(** ** types.ts, continued *)

(** [VariableFontAxis] *)
Module Axis.
Record t := { min : Z; max : Z }.
End Axis.

(** [VariableAxisConfig]: the entries of the object in the order
    [Object.entries] lists them; a key may be present with the value
    [undefined].  The keys of an object are pairwise distinct. *)
Definition VariableAxisConfig := list (string * option Axis.t).

(** [config[tag]]: a property read; [undefined] for a missing key and for a
    key that holds [undefined]. *)
Fixpoint axisOf (config : VariableAxisConfig) (tag : string) : option Axis.t :=
  match config with
  | [] => None
  | (k, v) :: rest => if String.eqb k tag then v else axisOf rest tag
  end.

(** [SubsetSlice] *)
Module Slice.
Record t := { index : N; codepoints : list N }.
End Slice.
Abbreviation SubsetSlice := Slice.t.

Inductive SubsetDefinition :=
| range (name : string) (unicodeRange : string) (codepoints : list N)
| sliced (name : string) (slices : list SubsetSlice).

(** [BaseFontConfig] *)
Module Config.
Record base := {
  family : string;
  subsets : list string;
  formats : list Format;
  featureSettings : list (string * bool);
  subsetSources : gmap string string
}.
End Config.
Abbreviation BaseFontConfig := Config.base.

Inductive FontBuildConfig :=
| StaticFontBuildConfig (base : BaseFontConfig)
    (weights : option (list Z)) (styles : option (list FontStyle))
| VariableFontBuildConfig (base : BaseFontConfig)
    (variable : VariableAxisConfig) (axisKey : option string).

Definition baseOf (config : FontBuildConfig) : BaseFontConfig :=
  match config with
  | StaticFontBuildConfig b _ _ => b
  | VariableFontBuildConfig b _ _ => b
  end.

Definition bytes := list Byte.byte.

Record OutputAsset := { assetFilename : string; assetContent : bytes }.

Record FontPackage := { css : list OutputAsset; fonts : list OutputAsset }.

(** [BaseProcessedVariant] *)
Module Variant.
Record base := {
  weight : Z;
  style : FontStyle;
  subset : string;
  sliceIndex : N;
  filename : string;
  content : bytes
}.
End Variant.
Abbreviation BaseProcessedVariant := Variant.base.

Inductive ProcessedVariant :=
| StaticProcessedVariant (b : BaseProcessedVariant)
| VariableProcessedVariant (b : BaseProcessedVariant)
    (variable : VariableAxisConfig) (axisKey : string).

Definition baseVariant (v : ProcessedVariant) : BaseProcessedVariant :=
  match v with
  | StaticProcessedVariant b => b
  | VariableProcessedVariant b _ _ => b
  end.

(** [v.type === 'variable'] *)
Definition isVariableVariant (v : ProcessedVariant) : bool :=
  match v with
  | StaticProcessedVariant _ => false
  | VariableProcessedVariant _ _ _ => true
  end.

(** The log of [console.warn]: the message and, where the call passes one,
    the caught error. *)
Definition Warning (Error : Type) : Type := string * option Error.

(** The thrown values include the exceptions of the runtime: [typeError]
    is the [TypeError] for the call of a method that the value does not
    have. *)
Class RuntimeErrors (Error : Type) := { typeError : Error }.

#[global] Instance unit_RuntimeErrors : RuntimeErrors unit := {| typeError := () |}.

(** ** subsets.ts *)
Module Subsets.

Definition digitValue (c : ascii) : option N :=
  let n := N_of_ascii c in
  if (48 <=? n) && (n <=? 57) then Some (n - 48)
  else if (97 <=? n) && (n <=? 102) then Some (n - 87)
  else if (65 <=? n) && (n <=? 70) then Some (n - 55)
  else None.

(** The digits [parseInt] reads: the longest prefix of digits below [radix];
    [None] is [NaN], the result when there is no digit. *)
Fixpoint parseDigits (radix : N) (acc : option N) (s : string) : option N :=
  match s with
  | EmptyString => acc
  | String c t =>
      match digitValue c with
      | Some d =>
          if d <? radix
          then parseDigits radix (Some (from_option (λ a, a * radix) 0 acc + d)) t
          else acc
      | None => acc
      end
  end.

(** [parseInt(s, radix)] for [radix] 10 or 16 on a string without a sign
    (the sources pass a token that starts with [0x], or decimal digits):
    leading white space and, for radix 16, a prefix [0x] or [0X] are
    skipped. *)
Definition parseInt (s : string) (radix : N) : option N :=
  let s := Js.trimStart s in
  let s :=
    if (radix =? 16) && (Js.startsWith s "0x" || Js.startsWith s "0X")
    then String.substring 2 (String.length s - 2) s else s in
  parseDigits radix None s.

(** [line.split(' ')[0]] *)
Definition firstToken (line : string) : string :=
  match Js.split " " line with
  | [] => ""
  | tok :: _ => tok
  end.

(** The simple .nam format: one codepoint per line.  On a line on which
    [parseInt] yields [NaN] (a [0x] with no hexadecimal digit behind it)
    the code stores [NaN] among the codepoints, which has no counterpart
    in [list N]: the embedding leaves such a line out and agrees with the
    code on the texts that have none, those of [numericLines] below. *)
Definition parseNamFile (content : string) : list N :=
  omap (λ line, parseInt (firstToken line) 16)
    (filter (λ line, Js.startsWith line "0x" = true)
       (map Js.trim (Js.split Js.nl content))).

Definition isDigit (c : ascii) : bool :=
  let n := N_of_ascii c in (48 <=? n) && (n <=? 57).

(** The longest prefix of decimal digits: the capture of [(\d+)]. *)
Fixpoint digitsPrefix (s : string) : string :=
  match s with
  | EmptyString => EmptyString
  | String c t => if isDigit c then String c (digitsPrefix t) else EmptyString
  end.

(** [s.match(/codepoints: (\d+)/)]: the capture at the leftmost position
    where the pattern matches, [None] for [null]. *)
Fixpoint matchCodepoints (s : string) : option string :=
  let here :=
    if Js.startsWith s "codepoints: "
    then digitsPrefix (String.substring 12 (String.length s - 12) s)
    else "" in
  match here with
  | String _ _ => Some here
  | EmptyString =>
      match s with
      | EmptyString => None
      | String _ t => matchCodepoints t
      end
  end.

(** The code units of a rendered integer. *)
Definition isDigitOrMinus (c : ascii) : bool :=
  isDigit c || Ascii.eqb c "-".

(** The two variables of [parseSlicingStrategy]; [currentSlice] is [None]
    for [null]. *)
Record ParserState := {
  slices : list (list N);
  currentSlice : option (list N)
}.

Definition initialState : ParserState :=
  {| slices := []; currentSlice := None |}.

(** One turn of the [for] loop over the lines. *)
Definition parseLine (st : ParserState) (line : string) : ParserState :=
  let trimmedLine := Js.trim line in
  if String.eqb trimmedLine "subsets {" then
    {| slices := match currentSlice st with
                 | Some cur => slices st ++ [cur]
                 | None => slices st
                 end;
       currentSlice := Some [] |}
  else if Js.startsWith trimmedLine "codepoints:" then
    match matchCodepoints trimmedLine, currentSlice st with
    | Some digits, Some cur =>
        {| slices := slices st;
           currentSlice := Some (cur ++ option_list (parseInt digits 10)) |}
    | _, _ => st
    end
  else if String.eqb trimmedLine "}" then
    match currentSlice st with
    | Some ((_ :: _) as cur) =>
        {| slices := slices st ++ [cur]; currentSlice := None |}
    | _ => st
    end
  else st.

(** The loop over the lines, from the state [st]. *)
Definition scanFrom (st : ParserState) (text : string) : ParserState :=
  fold_left parseLine (Js.split Js.nl text) st.

(** The state when the loop over the lines of [fileContent] ends. *)
Definition scan (fileContent : string) : ParserState :=
  scanFrom initialState fileContent.

(** The text protobuf format of slicing strategies. *)
Definition parseSlicingStrategy (fileContent : string) : list (list N) :=
  rev (slices (scan fileContent)).

(** [slices.map((codepoints, i) => ({ index: i + 1, codepoints }))] *)
Definition indexSlices (slices : list (list N)) : list SubsetSlice :=
  imap (λ i codepoints,
        {| Slice.index := N.of_nat i + 1; Slice.codepoints := codepoints |})
    slices.

(** The body of the loop of [generateSubsetData] for the subset [name],
    where the read [config.subsetSources?.[name]] finds an own property or
    nothing.  Where it finds an inherited member ([readsInherited] below),
    the code throws at [fileContent.includes] and the loop ends: that is
    the exception of [callGenerateSubsetData]. *)
Definition loadSubset {Error : Type} (sources : gmap string string)
    (acc : gmap string SubsetDefinition * list (Warning Error)) (name : string)
  : gmap string SubsetDefinition * list (Warning Error) :=
  let '(subsetData, log) := acc in
  match sources !! name with
  | None | Some EmptyString =>
      (subsetData,
       log ++ [("WARN: No subset file content provided for " +:+ name, None)])
  | Some fileContent =>
      if Js.includes fileContent "subsets {" then
        let slices := parseSlicingStrategy fileContent in
        (<[name := sliced name (indexSlices slices)]> subsetData, log)
      else
        let codepoints := parseNamFile fileContent in
        let unicodeRange := Utils.codepointsToRangeString codepoints in
        (<[name := range name unicodeRange codepoints]> subsetData, log)
  end.

(** The lines of a block of the slicing format with the codepoints
    [codepoints], and the text of a list of blocks: the format that
    [parseSlicingStrategy] reads. *)
Definition blockLines (codepoints : list N) : list string :=
  ["subsets {"] ++
  map (λ n, "  codepoints: " +:+ Js.showN n) codepoints ++
  ["}"].

Definition slicingText (blocks : list (list N)) : string :=
  Js.join (String Js.nl "") (flat_map blockLines blocks).






(** [!fileContent] for the source text of a subset. *)
Definition noContent (sources : gmap string string) (name : string) : bool :=
  match sources !! name with
  | None | Some EmptyString => true
  | Some _ => false
  end.

(** Every line that [parseNamFile] reads as a codepoint has a hexadecimal
    digit behind [0x]: [parseInt] yields a number on it, not [NaN]. *)
Definition numericLines (content : string) : bool :=
  forallb (λ line, match parseInt (firstToken line) 16 with
                   | Some _ => true
                   | None => false
                   end)
    (filter (λ line, Js.startsWith line "0x" = true)
       (map Js.trim (Js.split Js.nl content))).

(** The read [config.subsetSources?.[name]] finds an inherited member:
    the object has no own property [name], and [Object.prototype] has a
    member of that name. *)
Definition readsInherited (sources : gmap string string) (name : string) : bool :=
  match sources !! name with
  | Some _ => false
  | None => bool_decide (name ∈ Js.objectPrototypeMembers)
  end.

(** The read of the source of [name] does not throw, and what is parsed
    from it is within the embedding: the object has an own property
    [name] whose text is a slicing text or a .nam text without [NaN], or
    the read finds nothing. *)
Definition sourceInScope (sources : gmap string string) (name : string) : bool :=
  match sources !! name with
  | Some fileContent =>
      Js.includes fileContent "subsets {" || numericLines fileContent
  | None => negb (readsInherited sources name)
  end.

(** All subsets that the configuration requests are read without an
    exception and within the embedding. *)
Definition sourcesInScope (config : FontBuildConfig) : bool :=
  forallb (sourceInScope (Config.subsetSources (baseOf config)))
    (Config.subsets (baseOf config)).

(** The definition that the loop stores for a subset with the non-empty
    source text [fileContent]: the two branches of [loadSubset]. *)
Definition definitionOf (name fileContent : string) : SubsetDefinition :=
  if Js.includes fileContent "subsets {"
  then sliced name (indexSlices (parseSlicingStrategy fileContent))
  else range name (Utils.codepointsToRangeString (parseNamFile fileContent))
         (parseNamFile fileContent).

(** The subset data and the warnings of the loop over the requested
    names: what the call returns when it returns. *)
Definition generateSubsetData {Error : Type} (config : FontBuildConfig)
  : gmap string SubsetDefinition * list (Warning Error) :=
  fold_left (loadSubset (Config.subsetSources (baseOf config)))
    (Config.subsets (baseOf config)) (∅, []).

(** The call [generateSubsetData(config)]: when the read of a requested
    name finds an inherited member, the loop throws [typeError], the
    [TypeError] of [fileContent.includes] on what is no string; otherwise
    the call returns. *)
Definition callGenerateSubsetData {Error : Type} `{!RuntimeErrors Error}
    (config : FontBuildConfig)
  : Error + (gmap string SubsetDefinition * list (Warning Error)) :=
  if existsb (readsInherited (Config.subsetSources (baseOf config)))
       (Config.subsets (baseOf config))
  then inl typeError
  else inr (generateSubsetData config).

End Subsets.

(** ** css.ts *)
Module Css.

Definition nl : string := String Js.nl "".

(** The [src] property of an [@font-face] rule. *)
Definition generateFontSrc (variants : list ProcessedVariant) : string :=
  match variants with
  | [] => ""
  | first :: _ =>
      let isVariable := isVariableVariant first in
      Js.join ", "
        (map (λ variant,
                let url := "./files/" +:+ Variant.filename (baseVariant variant) in
                let format :=
                  if Js.endsWith (Variant.filename (baseVariant variant)) "woff2"
                  then (if isVariable then "woff2-variations" else "woff2")
                  else "woff" in
                "url(" +:+ url +:+ ") format('" +:+ format +:+ "')")
           variants)
  end.

(** The unicode range of the rule, from the subset definition. *)
Definition unicodeRangeOf (subset : SubsetDefinition) (sliceIndex : N) : string :=
  match subset with
  | range _ unicodeRange _ => unicodeRange
  | sliced _ slices =>
      match List.find (λ s, Slice.index s =? sliceIndex) slices with
      | Some s => Utils.codepointsToRangeString (Slice.codepoints s)
      | None => ""
      end
  end.

(** [weight] of a variable rule. *)
Definition variableWeight (variable : VariableAxisConfig) : string :=
  match axisOf variable "wght" with
  | Some wght =>
      if Z.eqb (Axis.min wght) (Axis.max wght)
      then Js.showZ (Axis.min wght)
      else Js.showZ (Axis.min wght) +:+ " " +:+ Js.showZ (Axis.max wght)
  | None =>
      if Nat.eqb (length variable) 0 then "100 900" else "400"
  end.

(** [style] of a variable rule. *)
Definition variableStyle (variable : VariableAxisConfig) : string :=
  match axisOf variable "slnt" with
  | Some slnt =>
      if negb (Z.eqb (Axis.min slnt) 0) || negb (Z.eqb (Axis.max slnt) 0)
      then
        if Z.eqb (Axis.min slnt) (Axis.max slnt)
        then "oblique " +:+ Js.showZ (Z.abs (Axis.min slnt)) +:+ "deg"
        else "oblique " +:+ Js.showZ (Z.abs (Axis.max slnt)) +:+ "deg " +:+
             Js.showZ (Z.abs (Axis.min slnt)) +:+ "deg"
      else "normal"
  | None => "normal"
  end.

(** [stretch ?? ''] of a variable rule. *)
Definition variableStretch (variable : VariableAxisConfig) : string :=
  match axisOf variable "wdth" with
  | Some wdth =>
      nl +:+ "  font-stretch: " +:+
      (if Z.eqb (Axis.min wdth) (Axis.max wdth)
       then Js.showZ (Axis.min wdth) +:+ "%"
       else Js.showZ (Axis.min wdth) +:+ "% " +:+ Js.showZ (Axis.max wdth) +:+ "%")
      +:+ ";"
  | None => ""
  end.

Definition normalizedStyle (style : string) : string :=
  if Js.startsWith style "oblique " then "italic" else style.

(** The text of a rule, from the values the body of [generateFontFace]
    has computed. *)
Definition fontFaceBlock
    (comment fontFamily style weight stretch src unicodeRange : string) : string :=
  "/* " +:+ comment +:+ " */" +:+ nl +:+
  "@font-face {" +:+ nl +:+
  "  font-family: '" +:+ fontFamily +:+ "';" +:+ nl +:+
  "  font-style: " +:+ style +:+ ";" +:+ nl +:+
  "  font-display: swap;" +:+ nl +:+
  "  font-weight: " +:+ weight +:+ ";" +:+ stretch +:+ nl +:+
  "  src: " +:+ src +:+ ";" +:+ nl +:+
  "  unicode-range: " +:+ unicodeRange +:+ ";" +:+ nl +:+
  "}" +:+ nl.

(** A single [@font-face] rule. *)
Definition generateFontFace (family : string)
    (variants : list ProcessedVariant) (subset : SubsetDefinition) : string :=
  match variants with
  | [] => ""
  | firstVariant :: _ =>
      let sliceIndex := Variant.sliceIndex (baseVariant firstVariant) in
      let unicodeRange := unicodeRangeOf subset sliceIndex in
      match unicodeRange with
      | EmptyString => ""
      | _ =>
          let '(style, weight, stretch, comment) :=
            match firstVariant with
            | VariableProcessedVariant b variable axisKey =>
                let weight := variableWeight variable in
                let style := variableStyle variable in
                let stretch := variableStretch variable in
                (style, weight, stretch,
                 Utils.normalizeKebabCase family +:+ "-" +:+ Variant.subset b +:+
                 "-" +:+ axisKey +:+ "-" +:+ normalizedStyle style)
            | StaticProcessedVariant b =>
                let style := Variant.style b in
                let weight := Js.showZ (Variant.weight b) in
                (style, weight, "",
                 Utils.normalizeKebabCase family +:+ "-" +:+ Variant.subset b +:+
                 "-" +:+ weight +:+ "-" +:+ normalizedStyle style)
            end in
          let comment :=
            if 0 <? sliceIndex then comment +:+ "-" +:+ Js.showN sliceIndex
            else comment in
          let src := generateFontSrc variants in
          let fontFamily :=
            if isVariableVariant firstVariant then family +:+ " Variable"
            else family in
          fontFaceBlock comment fontFamily style weight stretch src unicodeRange
      end
  end.

(** The key of the group of a variant. *)
Definition groupKey (variant : ProcessedVariant) : string :=
  Variant.subset (baseVariant variant) +:+ "-" +:+
  Js.showN (Variant.sliceIndex (baseVariant variant)).

(** [group = groupedVariants.get(key) ?? []; group.push(variant);
    groupedVariants.set(key, group)] on a [Map] kept as the list of its
    entries in insertion order. *)
Fixpoint addToGroup (groupedVariants : list (string * list ProcessedVariant))
    (key : string) (variant : ProcessedVariant)
  : list (string * list ProcessedVariant) :=
  match groupedVariants with
  | [] => [(key, [variant])]
  | (k, group) :: rest =>
      if String.eqb k key then (k, group ++ [variant]) :: rest
      else (k, group) :: addToGroup rest key variant
  end.

Definition groupVariants (variants : list ProcessedVariant)
  : list (string * list ProcessedVariant) :=
  fold_left (λ groupedVariants variant,
               addToGroup groupedVariants (groupKey variant) variant)
    variants [].

(** Groups the variants by subset and slice index, one rule per group. *)
Definition generateCSS (family : string) (variants : list ProcessedVariant)
    (subsets : gmap string SubsetDefinition) : string :=
  fold_left
    (λ css '(_, group),
       match group with
       | [] => css
       | first :: _ =>
           match subsets !! Variant.subset (baseVariant first) with
           | Some subset => css +:+ generateFontFace family group subset
           | None => css
           end
       end)
    (groupVariants variants) "".

Definition generateStaticCSS (family : string) (weight : Z) (style : FontStyle)
    (variants : list ProcessedVariant)
    (subsets : gmap string SubsetDefinition) : string :=
  let staticVariants :=
    filter (λ variant,
              isVariableVariant variant = false ∧
              Variant.weight (baseVariant variant) = weight ∧
              Variant.style (baseVariant variant) = style)
      variants in
  generateCSS family staticVariants subsets.

Definition generateVariableCSS (family : string)
    (variants : list ProcessedVariant)
    (subsets : gmap string SubsetDefinition) : string :=
  let variableVariants :=
    filter (λ variant, isVariableVariant variant = true) variants in
  generateCSS family variableVariants subsets.

End Css.

(** ** The font engine ([@glypht/core]), as far as the sources read it *)

(** A declared style value: [{ type: 'single', value }] or
    [{ type: 'variable', value: { min, defaultValue, max } }]. *)
Inductive StyleValue :=
| singleValue (value : Z)
| variableValue (value : Utils.RangeValue).

(** [v.value] *)
Definition valueOf (v : StyleValue) : Z + Utils.RangeValue :=
  match v with
  | singleValue n => inl n
  | variableValue o => inr o
  end.

(** The keys of [FontRef['styleValues']]. *)
Inductive StyleKey := weightKey | slantKey | widthKey | italicKey.

Module FontRef.
Record styleValues := {
  weight : StyleValue;
  slant : StyleValue;
  width : StyleValue;
  italic : StyleValue
}.

(** A loaded font: [handle] tells the fonts of a build apart. *)
Record t := { handle : N; values : styleValues }.

(** [font.styleValues[key]] *)
Definition get (font : t) (key : StyleKey) : StyleValue :=
  match key with
  | weightKey => weight (values font)
  | slantKey => slant (values font)
  | widthKey => width (values font)
  | italicKey => italic (values font)
  end.
End FontRef.

(** [SubsetAxisSetting]: a constraint on one axis for the subsetting call. *)
Inductive SubsetAxisSetting :=
| axisSingle (tag : string) (value : Z)
| axisVariable (tag : string) (value : Utils.RangeValue).

(** The argument of [font.subset]. *)
Record SubsetSettings := {
  axisValues : list SubsetAxisSetting;
  features : list (string * bool);
  unicodeRangesNamed : list string;
  unicodeRangesCustom : list N
}.

(** ** processor.ts *)
Module Processor.

(** One unit of work: a font slice in one format. *)
Module Job.
Record t := {
  font : FontRef.t;
  subsetName : string;
  codepoints : list N;
  sliceIndex : N;
  weight : Z;
  style : FontStyle;
  format : Format;
  targetWeight : option Z;
  variableConfig : option VariableAxisConfig;
  axisKey : option string
}.
End Job.
Abbreviation ProcessingJob := Job.t.

(** [ProcessingContext], without the handle of the compression engine. *)
Record ProcessingContext := {
  familyId : string;
  config : FontBuildConfig;
  subsetsOf : gmap string SubsetDefinition
}.

(** The weight and the style of a font.  For an integer slant,
    [Math.round(Math.abs(slantValue) * 10) / 10] is [Math.abs(slantValue)]. *)
Definition extractFontStyle (font : FontRef.t) : Z * FontStyle :=
  let weight :=
    match FontRef.weight (FontRef.values font) with
    | singleValue value => value
    | variableValue value => Utils.extractStyleValue (inr value)
    end in
  let italicValue :=
    Utils.extractStyleValue (valueOf (FontRef.italic (FontRef.values font))) in
  let slantValue :=
    Utils.extractStyleValue (valueOf (FontRef.slant (FontRef.values font))) in
  let style :=
    if (0 <? italicValue)%Z then "italic"
    else if negb (slantValue =? 0)%Z
         then "oblique " +:+ Js.showZ (Z.abs slantValue) +:+ "deg"
         else "normal" in
  (weight, style).

(** [list?.length] as a condition. *)
Definition hasLength {A} (o : option (list A)) : bool :=
  match o with
  | Some (_ :: _) => true
  | _ => false
  end.

(** [for (let w = 100; w <= 1000; w += 100)] *)
Definition standardWeights : list Z :=
  [100; 200; 300; 400; 500; 600; 700; 800; 900; 1000]%Z.

(** The body of the loop over the fonts, on [availableWeights]. *)
Definition addFontWeights (availableWeights : list Z) (font : FontRef.t) : list Z :=
  match FontRef.weight (FontRef.values font) with
  | singleValue value => Js.setAdd availableWeights value
  | variableValue value =>
      let min := Utils.min value in
      let max := Utils.max value in
      let defaultValue := Utils.defaultValue value in
      let s := Js.setAdd availableWeights min in
      let s := Js.setAdd s max in
      let s := if negb (defaultValue =? 0)%Z then Js.setAdd s defaultValue else s in
      fold_left
        (λ s w, if (min <=? w)%Z && (w <=? max)%Z then Js.setAdd s w else s)
        standardWeights s
  end.

(** The weights a font contributes when the weights are inferred, in the
    words of the specification: the single value of a font of fixed
    weight; for a font with a weight range its minimum, its maximum, its
    declared default when that is not zero, and every multiple of 100
    from 100 to 1000 that lies within the range. *)
Definition offersWeight (font : FontRef.t) (w : Z) : Prop :=
  match FontRef.weight (FontRef.values font) with
  | singleValue value => w = value
  | variableValue value =>
      w = Utils.min value ∨ w = Utils.max value ∨
      (w = Utils.defaultValue value ∧ Utils.defaultValue value ≠ 0%Z) ∨
      ((100 | w) ∧ 100 ≤ w ≤ 1000 ∧ Utils.min value ≤ w ≤ Utils.max value)%Z
  end.

(** The body of the loop over the fonts, on [availableStyles]. *)
Definition addFontStyle (availableStyles : list FontStyle) (font : FontRef.t)
  : list FontStyle :=
  Js.setAdd availableStyles (snd (extractFontStyle font)).

(** [Array.from(availableWeights).sort((a, b) => a - b)] *)
Definition sortWeights (l : list Z) : list Z := merge_sort Z.le l.

(** The weights and styles to process: [(weightsToProcess, stylesToProcess)]. *)
Definition determineProcessingTargets (fontRefs : list FontRef.t)
    (config : FontBuildConfig) : list Z * list FontStyle :=
  match config with
  | StaticFontBuildConfig _ (Some ((_ :: _) as weights)) (Some ((_ :: _) as styles)) =>
      (weights, styles)
  | _ =>
      let availableWeights := fold_left addFontWeights fontRefs [] in
      let availableStyles := fold_left addFontStyle fontRefs [] in
      (match config with
       | StaticFontBuildConfig _ (Some ((_ :: _) as weights)) _ => weights
       | _ => sortWeights availableWeights
       end,
       match config with
       | StaticFontBuildConfig _ _ (Some ((_ :: _) as styles)) => styles
       | _ => availableStyles
       end)
  end.

Definition standardAxisSet : list string := ["wght"; "wdth"; "slnt"; "opsz"; "ital"].

(** The axis key of the filenames of a variable build. *)
Definition determineAxisKey (variableConfig : VariableAxisConfig)
    (configAxisKey : option string) : string :=
  match configAxisKey with
  | Some ((String _ _) as key) => Js.toLowerCase key
  | _ =>
      let present :=
        omap (λ '(axis, value), match value : option Axis.t with
                                | Some _ => Some axis
                                | None => None
                                end) variableConfig in
      let standard := filter (λ axis, axis ∈ standardAxisSet) present in
      let custom := filter (λ axis, axis ∉ standardAxisSet) present in
      match standard, custom with
      | [], [] => "wght"
      | _, first :: rest =>
          match standard, rest with
          | [], [] => first
          | _, _ => "full"
          end
      | first :: rest, [] =>
          match rest with
          | [] => first
          | _ => "standard"
          end
      end
  end.

(** The axes that the loop of [determineAxisKey] sorts into [standard] and
    [custom]: the keys of the axis config that hold a value, in the order
    of the object. *)
Definition definedAxes (variableConfig : VariableAxisConfig) : list string :=
  omap (λ '(axis, value), match value : option Axis.t with
                          | Some _ => Some axis
                          | None => None
                          end) variableConfig.

Definition standardAxisPropertyMap (tag : string) : option StyleKey :=
  if String.eqb tag "wght" then Some weightKey
  else if String.eqb tag "slnt" then Some slantKey
  else if String.eqb tag "wdth" then Some widthKey
  else if String.eqb tag "ital" then Some italicKey
  else None.

(** The constraint pushed for the entry [tag: config] of the axis config. *)
Definition axisSetting (font : FontRef.t) (tag : string) (config : Axis.t)
  : SubsetAxisSetting :=
  let defaultValue :=
    match standardAxisPropertyMap tag with
    | Some styleKey =>
        match FontRef.get font styleKey with
        | variableValue value => Utils.defaultValue value
        | singleValue _ => Axis.min config
        end
    | None => Axis.min config
    end in
  axisVariable tag
    {| Utils.min := Axis.min config;
       Utils.defaultValue := defaultValue;
       Utils.max := Axis.max config |}.


Definition buildAxisValues (font : FontRef.t)
    (variableConfig : option VariableAxisConfig) (targetWeight : option Z)
  : list SubsetAxisSetting :=
  match variableConfig with
  | Some entries =>
      omap (λ '(tag, config), axisSetting font tag <$> (config : option Axis.t))
        entries
  | None =>
      match targetWeight, FontRef.weight (FontRef.values font) with
      | Some w, variableValue _ =>
          if negb (w =? 0)%Z then [axisSingle "wght" w] else []
      | _, _ => []
      end
  end.

(** The line [console.warn] writes for a job that failed. *)
Definition failureMessage (job : ProcessingJob) : string :=
  let sliceInfo :=
    if 0 <? Job.sliceIndex job then " slice " +:+ Js.showN (Job.sliceIndex job)
    else "" in
  "Failed to process " +:+
  (match Job.variableConfig job with Some _ => "variable" | None => "static" end) +:+
  " font" +:+ sliceInfo +:+ " for " +:+ Job.subsetName job +:+
  " (" +:+ formatString (Job.format job) +:+ "):".

(** The jobs of a subset and its slices across all formats. *)
Definition createJobsForSubset (font : FontRef.t) (subsetName : string)
    (subsetDef : SubsetDefinition) (weight : Z) (style : FontStyle)
    (formats : list Format) (targetWeight : option Z)
    (variableConfig : option VariableAxisConfig) (axisKey : option string)
  : list ProcessingJob :=
  let sliceJobs : list (list N * N) :=
    match subsetDef with
    | sliced _ slices =>
        map (λ slice, (Slice.codepoints slice, Slice.index slice)) slices
    | range _ _ codepoints => [(codepoints, 0)]
    end in
  flat_map
    (λ '(codepoints, sliceIndex),
       map (λ format,
              {| Job.font := font;
                 Job.subsetName := subsetName;
                 Job.codepoints := codepoints;
                 Job.sliceIndex := sliceIndex;
                 Job.weight := weight;
                 Job.style := style;
                 Job.format := format;
                 Job.targetWeight := targetWeight;
                 Job.variableConfig := variableConfig;
                 Job.axisKey := axisKey |})
         formats)
    sliceJobs.

(** [new TextEncoder().encode(s)]: UTF-8, one byte for a code unit below
    128 and two bytes for one from 128 to 255. *)
Fixpoint encode (s : string) : bytes :=
  match s with
  | EmptyString => []
  | String c t =>
      let n := N_of_ascii c in
      if n <? 128 then byte_of_ascii c :: encode t
      else byte_of_ascii (ascii_of_N (192 + n / 64)) ::
           byte_of_ascii (ascii_of_N (128 + n mod 64)) :: encode t
  end.

(** The callback of [weightsToProcess.reduce]. *)
Definition closerTo400 (closest current : Z) : Z :=
  let closestDiff := Z.abs (closest - 400) in
  let currentDiff := Z.abs (current - 400) in
  if (currentDiff <? closestDiff)%Z ||
     ((currentDiff =? closestDiff)%Z && (closest <? current)%Z)
  then current else closest.

(** [d] is the weight of [ws] closest to 400, ties broken toward the
    heavier weight. *)
Definition isDefaultWeight (ws : list Z) (d : Z) : Prop :=
  d ∈ ws ∧
  ∀ w, w ∈ ws →
       (Z.abs (d - 400) ≤ Z.abs (w - 400))%Z ∧
       (Z.abs (w - 400) = Z.abs (d - 400) → w ≤ d)%Z.

(** The file name of the style sheet of a weight and a style. *)
Definition sheetName (weight : Z) (style : FontStyle) : string :=
  if String.eqb style "normal" then Js.showZ weight +:+ ".css"
  else Js.showZ weight +:+ "-italic.css".

(** The style sheets of a static build before [index.css] is added: the
    two nested loops. *)
Definition staticSheets (family : string) (allVariants : list ProcessedVariant)
    (subsets : gmap string SubsetDefinition)
    (weightsToProcess : list Z) (stylesToProcess : list FontStyle)
  : list OutputAsset :=
  flat_map
    (λ weight,
       flat_map
         (λ style,
            let cssContent :=
              Css.generateStaticCSS family weight style allVariants subsets in
            match cssContent with
            | EmptyString => []
            | _ =>
                let filename := sheetName weight style in
                [{| assetFilename := filename; assetContent := encode cssContent |}]
            end)
         stylesToProcess)
    weightsToProcess.

(** All CSS assets for the processed variants. *)
Definition generateAllCssAssets (ctx : ProcessingContext)
    (allVariants : list ProcessedVariant)
    (weightsToProcess : list Z) (stylesToProcess : list FontStyle)
  : list OutputAsset :=
  match config ctx with
  | VariableFontBuildConfig base _ _ =>
      let cssContent :=
        Css.generateVariableCSS (Config.family base) allVariants (subsetsOf ctx) in
      match cssContent with
      | EmptyString => []
      | _ => [{| assetFilename := "index.css"; assetContent := encode cssContent |}]
      end
  | StaticFontBuildConfig base _ _ =>
      let cssAssets :=
        staticSheets (Config.family base) allVariants (subsetsOf ctx)
          weightsToProcess stylesToProcess in
      match weightsToProcess with
      | [] => cssAssets
      | first :: rest =>
          let defaultWeight := fold_left closerTo400 rest first in
          let indexCss :=
            List.find (λ asset, String.eqb (assetFilename asset)
                                  (Js.showZ defaultWeight +:+ ".css"))
              cssAssets in
          match indexCss with
          | Some asset =>
              cssAssets ++
              [{| assetFilename := "index.css"; assetContent := assetContent asset |}]
          | None => cssAssets
          end
      end
  end.

(** The callback of [allVariants.map]: the font file of a variant. *)
Definition fontAsset (variant : ProcessedVariant) : OutputAsset :=
  {| assetFilename := "files/" +:+ Variant.filename (baseVariant variant);
     assetContent := Variant.content (baseVariant variant) |}.

(** *** The build, over the external engine *)
Section Build.

Context {Error : Type} `{!RuntimeErrors Error}.

(** [glyphtContext.loadFonts(fontBuffers)] *)
Variable loadFonts : list bytes → Error + list FontRef.t.

(** [font.subset(settings)], then [.data] of the font it returns *)
Variable subsetFont : FontRef.t → SubsetSettings → Error + bytes.

(** [compressionContext.compressFromTTF(data, format, level)] *)
Variable compressFromTTF : bytes → Format → Z → Error + bytes.

(** The order in which the concurrent jobs of [mapConcur] complete: any
    rearrangement of the planned jobs. *)
Variable completionOrder : list ProcessingJob → list ProcessingJob.

(** [await]: the rest of an [async] function runs on the value, or the
    function rejects with the error. *)
Definition awaitThen {A B} (r : Error + A) (k : A → Error + B) : Error + B :=
  match r with
  | inl e => inl e
  | inr a => k a
  end.

Notation "'const' x ':=' 'await' r ;; k" := (awaitThen r (λ x, k))
  (at level 10, x name, r at level 99, k at level 200).

(** One font slice in one format, as a variant. *)
Definition processSlice (ctx : ProcessingContext) (font : FontRef.t)
    (subsetName : string) (codepoints : list N) (sliceIndex : N) (weight : Z)
    (style : FontStyle) (format : Format) (targetWeight : option Z)
    (variableConfig : option VariableAxisConfig) (axisKey : option string)
  : Error + ProcessedVariant :=
  let axisValues := buildAxisValues font variableConfig targetWeight in
  const subsettedFont := await
    subsetFont font
      {| axisValues := axisValues;
         features := Config.featureSettings (baseOf (config ctx));
         unicodeRangesNamed := [];
         unicodeRangesCustom := codepoints |} ;;
  const content := await compressFromTTF subsettedFont format 11 ;;
  match variableConfig, axisKey with
  | Some variable, Some ((String _ _) as axisKey) =>
      inr (VariableProcessedVariant
             {| Variant.weight := weight;
                Variant.style := style;
                Variant.subset := subsetName;
                Variant.sliceIndex := sliceIndex;
                Variant.filename :=
                  Filename.generateVariableFilename (familyId ctx) subsetName
                    axisKey style sliceIndex format;
                Variant.content := content |}
             variable axisKey)
  | _, _ =>
      inr (StaticProcessedVariant
             {| Variant.weight := weight;
                Variant.style := style;
                Variant.subset := subsetName;
                Variant.sliceIndex := sliceIndex;
                Variant.filename :=
                  Filename.generateStaticFilename (familyId ctx) subsetName
                    weight style sliceIndex format;
                Variant.content := content |})
  end.

(** The call of [processSlice] in [processJob]. *)
Definition processSliceOf (processingCtx : ProcessingContext) (job : ProcessingJob)
  : Error + ProcessedVariant :=
  processSlice processingCtx (Job.font job) (Job.subsetName job)
    (Job.codepoints job) (Job.sliceIndex job) (Job.weight job)
    (Job.style job) (Job.format job) (Job.targetWeight job)
    (Job.variableConfig job) (Job.axisKey job).

(** [processJob]: the variant, or [None] for [null] and the warning the
    [catch] block writes. *)
Definition processJob (processingCtx : ProcessingContext) (job : ProcessingJob)
  : option ProcessedVariant * list (Warning Error) :=
  match processSliceOf processingCtx job with
  | inr variant => (Some variant, [])
  | inl error => (None, [(failureMessage job, Some error)])
  end.

(** The variants that the jobs of a list produce, each on its own. *)
Definition variantsOf (processingCtx : ProcessingContext)
    (jobs : list ProcessingJob) : list ProcessedVariant :=
  omap (λ job, (processJob processingCtx job).1) jobs.

(** The callback of [weightsToProcess.filter]: a font with a weight axis
    produces any weight, another one its own. *)
Definition canProduce (font : FontRef.t) (w : Z) : bool :=
  match FontRef.weight (FontRef.values font) with
  | variableValue _ => true
  | singleValue value => (value =? w)%Z
  end.

(** The flat list of all jobs of the build. *)
Definition allProcessingJobs (fontRefs : list FontRef.t) (config : FontBuildConfig)
    (subsets : gmap string SubsetDefinition)
    (weightsToProcess : list Z) (stylesToProcess : list FontStyle)
  : list ProcessingJob :=
  let isVariableFont :=
    match config with VariableFontBuildConfig _ _ _ => true | _ => false end in
  let variableConfig :=
    match config with
    | VariableFontBuildConfig _ variable _ => Some variable
    | _ => None
    end in
  let resolvedAxisKey :=
    match config with
    | VariableFontBuildConfig _ variable axisKey =>
        Some (determineAxisKey variable axisKey)
    | _ => None
    end in
  flat_map
    (λ font,
       let '(fontWeight, fontStyle) := extractFontStyle font in
       if decide (fontStyle ∈ stylesToProcess) then
         let applicableWeights : list (Z * FontStyle * option Z) :=
           if isVariableFont then [(fontWeight, fontStyle, None)]
           else
             map (λ targetWeight, (targetWeight, fontStyle, Some targetWeight))
               (filter (λ w, canProduce font w = true) weightsToProcess) in
         flat_map
           (λ '(weight, style, targetWeight),
              flat_map
                (λ subsetName,
                   match subsets !! subsetName with
                   | Some subsetDef =>
                       createJobsForSubset font subsetName subsetDef weight style
                         (Config.formats (baseOf config)) targetWeight variableConfig
                         resolvedAxisKey
                   | None => []
                   end)
                (Config.subsets (baseOf config)))
           applicableWeights
       else [])
    fontRefs.

(** [mapConcur(processJob)] collected by [reduceConcur(toArray())]: the
    outcomes of the jobs in the order of completion. *)
Definition runJobs (processingCtx : ProcessingContext) (jobs : list ProcessingJob)
  : list (option ProcessedVariant * list (Warning Error)) :=
  map (processJob processingCtx) (completionOrder jobs).

(** Font files to web font assets with CSS; next to the package, the log
    of [console.warn]. *)
Definition buildFont (fontBuffers : list bytes) (config : FontBuildConfig)
  : Error + (FontPackage * list (Warning Error)) :=
  const fontRefs := await loadFonts fontBuffers ;;
  let familyId := Utils.normalizeKebabCase (Config.family (baseOf config)) in
  const subsetData := await Subsets.callGenerateSubsetData config ;;
  let '(subsets, subsetLog) := subsetData in
  let processingCtx :=
    {| familyId := familyId; config := config; subsetsOf := subsets |} in
  let '(weightsToProcess, stylesToProcess) :=
    determineProcessingTargets fontRefs config in
  let jobs :=
    allProcessingJobs fontRefs config subsets weightsToProcess stylesToProcess in
  let outcomes := runJobs processingCtx jobs in
  let allVariants := omap fst outcomes in
  let jobLog := concat (map snd outcomes) in
  let cssAssets :=
    generateAllCssAssets processingCtx allVariants weightsToProcess
      stylesToProcess in
  let fontAssets := map fontAsset allVariants in
  inr ({| css := cssAssets; fonts := fontAssets |}, subsetLog ++ jobLog).

End Build.

End Processor.

(** ** Sample data, after the tests of the repository *)
Module Sample.

Definition nl : string := String Js.nl "".



(** A variable variant of the subset [latin] with the axes [variable]. *)
Definition variableLatin (variable : VariableAxisConfig) (axisKey : string)
    (filename : string) : ProcessedVariant :=
  VariableProcessedVariant
    {| Variant.weight := 400; Variant.style := "normal";
       Variant.subset := "latin"; Variant.sliceIndex := 0;
       Variant.filename := filename; Variant.content := [] |}
    variable axisKey.


(** A font with a weight axis from 100 to 900, default 400. *)
Definition interVariable : FontRef.t :=
  {| FontRef.handle := 1;
     FontRef.values :=
       {| FontRef.weight :=
            variableValue {| Utils.min := 100; Utils.defaultValue := 400;
                             Utils.max := 900 |};
          FontRef.slant := singleValue 0;
          FontRef.width := singleValue 100;
          FontRef.italic := singleValue 0 |} |}.

(** An italic font of the fixed weight 400. *)
Definition interItalic : FontRef.t :=
  {| FontRef.handle := 2;
     FontRef.values :=
       {| FontRef.weight := singleValue 400;
          FontRef.slant := singleValue 0;
          FontRef.width := singleValue 100;
          FontRef.italic := singleValue 1 |} |}.

Definition latinBase : BaseFontConfig :=
  {| Config.family := "Inter";
     Config.subsets := ["latin"];
     Config.formats := [woff2];
     Config.featureSettings := [];
     Config.subsetSources := {[ "latin" := "0x0041 A" ]} |}.

Definition latinSubsets : gmap string SubsetDefinition :=
  {[ "latin" := range "latin" "U+41" [65] ]}.

(** The weight axis from 200 to 700. *)
Definition weightAxis : VariableAxisConfig :=
  [("wght", Some {| Axis.min := 200; Axis.max := 700 |})].


Definition variableCtx : Processor.ProcessingContext :=
  {| Processor.familyId := "inter";
     Processor.config := VariableFontBuildConfig latinBase weightAxis None;
     Processor.subsetsOf := latinSubsets |}.

(** Two blocks in the slicing format. *)
Definition japaneseSource : string :=
  "subsets {" +:+ nl +:+ "  codepoints: 12353" +:+ nl +:+
  "  codepoints: 12354" +:+ nl +:+ "}" +:+ nl +:+
  "subsets {" +:+ nl +:+ "  codepoints: 12356" +:+ nl +:+ "}".

Definition japaneseConfig : FontBuildConfig :=
  StaticFontBuildConfig
    {| Config.family := "Noto Sans JP";
       Config.subsets := ["japanese"];
       Config.formats := [woff2];
       Config.featureSettings := [];
       Config.subsetSources := {[ "japanese" := japaneseSource ]} |}
    (Some [400%Z]) (Some ["normal"]).

(** The engine of the samples: every call succeeds. *)
Definition subsetOk (font : FontRef.t) (settings : SubsetSettings)
  : unit + bytes := inr [].

Definition compressOk (data : bytes) (format : Format) (level : Z)
  : unit + bytes := inr data.

(** A static build of the weight 400 in the style italic only. *)
Definition italicConfig : FontBuildConfig :=
  StaticFontBuildConfig latinBase (Some [400%Z]) (Some ["italic"]).

Definition loadItalic (fontBuffers : list bytes) : unit + list FontRef.t :=
  inr [interItalic].

(** A static build of the weights 300 and 500, with one variant of the
    weight 500. *)
Definition staticCtx : Processor.ProcessingContext :=
  {| Processor.familyId := "inter";
     Processor.config :=
       StaticFontBuildConfig latinBase (Some [300; 500]%Z) (Some ["normal"]);
     Processor.subsetsOf := latinSubsets |}.

Definition staticLatin500 : ProcessedVariant :=
  StaticProcessedVariant
    {| Variant.weight := 500; Variant.style := "normal";
       Variant.subset := "latin"; Variant.sliceIndex := 0;
       Variant.filename := "inter-latin-500-normal.woff2";
       Variant.content := [] |}.

(** The compression engine fails on the format [woff]. *)
Definition compressNoWoff (data : bytes) (format : Format) (level : Z)
  : unit + bytes :=
  match format with
  | woff => inl ()
  | woff2 => inr data
  end.

Definition loadVariable (fontBuffers : list bytes) : unit + list FontRef.t :=
  inr [interVariable].

(** A static build of the weight 400 in both formats. *)
Definition twoFormatConfig : FontBuildConfig :=
  StaticFontBuildConfig
    {| Config.family := "Inter";
       Config.subsets := ["latin"];
       Config.formats := [woff2; woff];
       Config.featureSettings := [];
       Config.subsetSources := {[ "latin" := "0x0041 A" ]} |}
    (Some [400%Z]) (Some ["normal"]).

(** A build that requests the subset [constructor] and gives no source
    text for it: the read of the source finds [Object.prototype.constructor]. *)
Definition constructorConfig : FontBuildConfig :=
  StaticFontBuildConfig
    {| Config.family := "Inter";
       Config.subsets := ["constructor"];
       Config.formats := [woff2];
       Config.featureSettings := [];
       Config.subsetSources := ∅ |}
    (Some [400%Z]) (Some ["normal"]).

(** The job of the weight 500 of the static build of [interVariable]. *)
Definition staticJob : Processor.ProcessingJob :=
  {| Processor.Job.font := interVariable;
     Processor.Job.subsetName := "latin";
     Processor.Job.codepoints := [65];
     Processor.Job.sliceIndex := 0;
     Processor.Job.weight := 500;
     Processor.Job.style := "normal";
     Processor.Job.format := woff2;
     Processor.Job.targetWeight := Some 500%Z;
     Processor.Job.variableConfig := None;
     Processor.Job.axisKey := None |}.

End Sample.

(** * Properties *)

(** ** Strings *)
Section StringFacts.

Lemma append_cons (c : ascii) (a b : string) :
  String c a +:+ b = String c (a +:+ b).
Proof. done. Qed.

Lemma append_nil_l (s : string) : "" +:+ s = s.
Proof. done. Qed.

Lemma append_nil_r (s : string) : s +:+ "" = s.
Proof. induction s as [|c s IH]; [done|]. by rewrite append_cons, IH. Qed.

Lemma append_assoc (a b c : string) : (a +:+ b) +:+ c = a +:+ b +:+ c.
Proof. induction a as [|x a IH]; [done|]. by rewrite !append_cons, IH. Qed.

Lemma prefix_append (p s : string) : String.prefix p (p +:+ s) = true.
Proof.
  induction p as [|c p IH]; [by destruct s|].
  rewrite append_cons. simpl. destruct (ascii_dec c c); [done|congruence].
Qed.

Lemma startsWith_append (p s : string) : Js.startsWith (p +:+ s) p = true.
Proof. apply prefix_append. Qed.

Lemma allChars_impl (p q : ascii → bool) (s : string) :
  (∀ c, p c = true → q c = true) →
  Js.allChars p s = true → Js.allChars q s = true.
Proof.
  intros Hpq. induction s as [|c s IH]; [done|]. simpl.
  rewrite !andb_true_iff. intros [? ?]. auto.
Qed.

End StringFacts.

(** ** Filenames *)

(** C8.  [generateStaticFilename] and [generateVariableFilename] follow the
    grammar [<familyId>-<subset>-<weight or axisKey>-<normalizedStyle>]
    [[-<sliceIndex>].<format>]: every style that starts with [oblique ]
    folds to [italic], [normal] and [italic] stay, the slice suffix is
    empty exactly when the slice index is 0, and the three examples of the
    specification evaluate as stated. *)
Theorem filename_grammar :
  (∀ familyId subset weight style sliceIndex format,
     Filename.generateStaticFilename familyId subset weight style sliceIndex format
     = familyId +:+ "-" +:+ subset +:+ "-" +:+ Js.showZ weight +:+ "-" +:+
       Filename.normalizeStyleForFilename style +:+
       (if decide (sliceIndex = 0) then "" else "-" +:+ Js.showN sliceIndex) +:+
       "." +:+ formatString format) ∧
  (∀ familyId subset axisKey style sliceIndex format,
     Filename.generateVariableFilename familyId subset axisKey style sliceIndex format
     = familyId +:+ "-" +:+ subset +:+ "-" +:+ axisKey +:+ "-" +:+
       Filename.normalizeStyleForFilename style +:+
       (if decide (sliceIndex = 0) then "" else "-" +:+ Js.showN sliceIndex) +:+
       "." +:+ formatString format) ∧
  (∀ angle, Filename.normalizeStyleForFilename ("oblique " +:+ angle) = "italic") ∧
  Filename.normalizeStyleForFilename "normal" = "normal" ∧
  Filename.normalizeStyleForFilename "italic" = "italic" ∧
  (∀ sliceIndex, Filename.sliceSuffix sliceIndex = "" ↔ sliceIndex = 0) ∧
  (∀ format, formatString format = "woff" ∨ formatString format = "woff2") ∧
  Filename.generateStaticFilename "inter" "latin" 400 "normal" 0 woff2
  = "inter-latin-400-normal.woff2" ∧
  Filename.generateStaticFilename "inter" "latin" 400 "oblique 10deg" 0 woff2
  = "inter-latin-400-italic.woff2" ∧
  Filename.generateVariableFilename "inter" "latin" "wght" "italic" 0 woff
  = "inter-latin-wght-italic.woff".
Proof.
  assert (Hsuffix : ∀ sliceIndex,
             Filename.sliceSuffix sliceIndex
             = if decide (sliceIndex = 0) then "" else "-" +:+ Js.showN sliceIndex).
  { intros i. unfold Filename.sliceSuffix.
    destruct (decide (i = 0)) as [->|Hne]; [done|].
    destruct (N.ltb_spec 0 i); [done|lia]. }
  repeat split.
  - intros. unfold Filename.generateStaticFilename. by rewrite Hsuffix.
  - intros. unfold Filename.generateVariableFilename. by rewrite Hsuffix.
  - intros angle. unfold Filename.normalizeStyleForFilename.
    by rewrite startsWith_append.
  - rewrite Hsuffix. by destruct (decide (sliceIndex = 0)).
  - intros ->. done.
  - intros []; auto.
Qed.

(** ** Style sheets *)

(** What [generateFontFace] returns when it returns a rule: the group has a
    first variant, the unicode range is not empty, and the rule is the
    block of the values computed from that first variant. *)
Lemma generateFontFace_block (family : string) (variants : list ProcessedVariant)
    (subset : SubsetDefinition) :
  Css.generateFontFace family variants subset ≠ "" →
  ∃ firstVariant rest comment style weight stretch,
    variants = firstVariant :: rest ∧
    Css.unicodeRangeOf subset (Variant.sliceIndex (baseVariant firstVariant)) ≠ "" ∧
    (style, weight, stretch) =
      match firstVariant with
      | VariableProcessedVariant _ variable _ =>
          (Css.variableStyle variable, Css.variableWeight variable,
           Css.variableStretch variable)
      | StaticProcessedVariant b =>
          (Variant.style b, Js.showZ (Variant.weight b), "")
      end ∧
    Css.generateFontFace family variants subset =
      Css.fontFaceBlock comment
        (if isVariableVariant firstVariant then family +:+ " Variable" else family)
        style weight stretch (Css.generateFontSrc variants)
        (Css.unicodeRangeOf subset (Variant.sliceIndex (baseVariant firstVariant))).
Proof.
  intros Hgen. destruct variants as [|firstVariant rest]; [done|].
  unfold Css.generateFontFace in *.
  destruct (Css.unicodeRangeOf subset _) as [|c r] eqn:Hrange; [done|].
  exists firstVariant, rest. rewrite Hrange.
  destruct firstVariant as [b|b variable axisKey];
    do 4 eexists; (split; [reflexivity|]); (split; [done|]);
    (split; [reflexivity|]); reflexivity.
Qed.

(** Grouping keeps a property that all variants have: every group is not
    empty and consists of variants with the property. *)
Lemma addToGroup_Forall (P : ProcessedVariant → Prop)
    (groupedVariants : list (string * list ProcessedVariant))
    (key : string) (variant : ProcessedVariant) :
  Forall (λ group, group.2 ≠ [] ∧ Forall P group.2) groupedVariants →
  P variant →
  Forall (λ group, group.2 ≠ [] ∧ Forall P group.2)
    (Css.addToGroup groupedVariants key variant).
Proof.
  intros Hgroups Hvariant.
  induction groupedVariants as [|[k group] rest IH]; simpl.
  - repeat constructor; done.
  - apply Forall_cons in Hgroups as [[Hne Hgroup] Hrest].
    destruct (String.eqb k key).
    + constructor; [|done]. simpl. split; [by destruct group|].
      apply Forall_app. split; [done|]. by constructor.
    + constructor; [done|]. by apply IH.
Qed.

Lemma groupVariants_Forall (P : ProcessedVariant → Prop)
    (variants : list ProcessedVariant) :
  Forall P variants →
  Forall (λ group, group.2 ≠ [] ∧ Forall P group.2) (Css.groupVariants variants).
Proof.
  unfold Css.groupVariants.
  assert (Hgen : ∀ groupedVariants,
    Forall (λ group, group.2 ≠ [] ∧ Forall P group.2) groupedVariants →
    Forall P variants →
    Forall (λ group, group.2 ≠ [] ∧ Forall P group.2)
      (fold_left (λ groupedVariants variant,
                    Css.addToGroup groupedVariants (Css.groupKey variant) variant)
         variants groupedVariants)).
  { induction variants as [|variant variants IH]; intros groups Hgroups Hall; [done|].
    apply Forall_cons in Hall as [Hvariant Hall]. simpl.
    apply IH; [|done]. by apply addToGroup_Forall. }
  by apply Hgen.
Qed.

(** The groups of a variable style sheet consist of variable variants,
    those of a static style sheet of static variants. *)
Lemma css_groups_homogeneous (variants : list ProcessedVariant)
    (weight : Z) (style : FontStyle) :
  Forall (λ group, group.2 ≠ [] ∧
                   Forall (λ v, isVariableVariant v = true) group.2)
    (Css.groupVariants (filter (λ v, isVariableVariant v = true) variants)) ∧
  Forall (λ group, group.2 ≠ [] ∧
                   Forall (λ v, isVariableVariant v = false) group.2)
    (Css.groupVariants
       (filter (λ v, isVariableVariant v = false ∧
                     Variant.weight (baseVariant v) = weight ∧
                     Variant.style (baseVariant v) = style) variants)).
Proof.
  split; apply groupVariants_Forall, Forall_forall; intros v Hv;
    apply list_elem_of_filter in Hv; tauto.
Qed.






(** ** Jobs *)
Section JobFacts.

Context {Error : Type}.

Import Processor.

(** Membership in a [flat_map], in stdpp's notation. *)
Lemma elem_of_flat_map {A B} (f : A → list B) (l : list A) (y : B) :
  y ∈ flat_map f l ↔ ∃ x, x ∈ l ∧ y ∈ f x.
Proof.
  rewrite list_elem_of_In, in_flat_map.
  split; intros (x & Hx & Hy); exists x; by rewrite ?list_elem_of_In in *.
Qed.

(** What [createJobsForSubset] copies into every job. *)
Lemma createJobsForSubset_fields font subsetName subsetDef weight style formats
    targetWeight variableConfig axisKey (job : ProcessingJob) :
  job ∈ createJobsForSubset font subsetName subsetDef weight style formats
          targetWeight variableConfig axisKey →
  Job.font job = font ∧ Job.subsetName job = subsetName ∧
  Job.weight job = weight ∧ Job.style job = style ∧
  Job.format job ∈ formats ∧ Job.targetWeight job = targetWeight ∧
  Job.variableConfig job = variableConfig ∧ Job.axisKey job = axisKey.
Proof.
  unfold createJobsForSubset. rewrite elem_of_flat_map.
  intros ([codepoints sliceIndex] & _ & Hjob).
  apply list_elem_of_fmap in Hjob as (format & -> & Hformat). by repeat split.
Qed.

(** Every job of a variable build carries the axis config of the build. *)
Lemma variable_build_jobs fontRefs base variable axisKey subsets weights styles
    (job : ProcessingJob) :
  job ∈ allProcessingJobs fontRefs (VariableFontBuildConfig base variable axisKey)
          subsets weights styles →
  Job.font job ∈ fontRefs ∧
  Job.variableConfig job = Some variable ∧
  Job.targetWeight job = None ∧
  Job.axisKey job = Some (determineAxisKey variable axisKey).
Proof.
  unfold allProcessingJobs. rewrite elem_of_flat_map.
  intros (font & Hfont & Hjob).
  destruct (extractFontStyle font) as [fontWeight fontStyle].
  destruct (decide (fontStyle ∈ styles)); [|by apply elem_of_nil in Hjob].
  apply elem_of_flat_map in Hjob as ([[weight style] targetWeight] & Hw & Hjob).
  apply list_elem_of_singleton in Hw. injection Hw as -> -> ->.
  apply elem_of_flat_map in Hjob as (subsetName & _ & Hjob).
  destruct (subsets !! subsetName); [|by apply elem_of_nil in Hjob].
  apply createJobsForSubset_fields in Hjob as (-> & _ & _ & _ & _ & -> & -> & ->).
  done.
Qed.

(** The slice of a job: index 0 and all codepoints for a range subset,
    one of the slices for a sliced subset. *)
Lemma createJobsForSubset_slice font subsetName subsetDef weight style formats
    targetWeight variableConfig axisKey (job : ProcessingJob) :
  job ∈ createJobsForSubset font subsetName subsetDef weight style formats
          targetWeight variableConfig axisKey →
  match subsetDef with
  | range _ _ codepoints =>
      Job.sliceIndex job = 0 ∧ Job.codepoints job = codepoints
  | sliced _ slices =>
      ∃ slice, slice ∈ slices ∧ Job.sliceIndex job = Slice.index slice ∧
               Job.codepoints job = Slice.codepoints slice
  end.
Proof.
  unfold createJobsForSubset. rewrite elem_of_flat_map.
  intros ([codepoints sliceIndex] & Hslice & Hjob).
  apply list_elem_of_fmap in Hjob as (format & -> & _). simpl.
  destruct subsetDef as [name unicodeRange cps|name slices].
  - apply list_elem_of_singleton in Hslice. by injection Hslice as -> ->.
  - apply list_elem_of_fmap in Hslice as (slice & [= -> ->] & Hslice). eauto.
Qed.

(** Every job of a build comes from a loaded font and a loaded subset. *)
Lemma allProcessingJobs_inv fontRefs config subsets weights styles
    (job : ProcessingJob) :
  job ∈ allProcessingJobs fontRefs config subsets weights styles →
  ∃ subsetDef weight style targetWeight variableConfig axisKey,
    Job.font job ∈ fontRefs ∧
    subsets !! Job.subsetName job = Some subsetDef ∧
    job ∈ createJobsForSubset (Job.font job) (Job.subsetName job) subsetDef
            weight style (Config.formats (baseOf config)) targetWeight
            variableConfig axisKey.
Proof.
  unfold allProcessingJobs. rewrite elem_of_flat_map.
  intros (font & Hfont & Hjob).
  destruct (extractFontStyle font) as [fontWeight fontStyle].
  destruct (decide (fontStyle ∈ styles)); [|by apply elem_of_nil in Hjob].
  apply elem_of_flat_map in Hjob as ([[weight style] targetWeight] & _ & Hjob).
  apply elem_of_flat_map in Hjob as (subsetName & _ & Hjob).
  destruct (subsets !! subsetName) as [subsetDef|] eqn:Hsubset;
    [|by apply elem_of_nil in Hjob].
  pose proof (createJobsForSubset_fields _ _ _ _ _ _ _ _ _ _ Hjob)
    as (Hf & Hn & _).
  rewrite Hf, Hn. by eexists subsetDef, _, _, _, _, _.
Qed.

End JobFacts.



(** ** The slicing-strategy parser *)
Section ParserFacts.

Import Subsets.

Lemma split_not_nil (sep : ascii) (s : string) : Js.split sep s ≠ [].
Proof.
  induction s as [|c s IH]; [done|]. simpl.
  destruct (Ascii.eqb c sep); [done|]. by destruct (Js.split sep s).
Qed.

(** Splitting a text at a separator splits its lines. *)
Lemma split_append (sep : ascii) (a b : string) :
  Js.split sep (a +:+ String sep b) = Js.split sep a ++ Js.split sep b.
Proof.
  induction a as [|c a IH].
  - rewrite append_nil_l. simpl. by rewrite Ascii.eqb_refl.
  - rewrite append_cons. simpl. rewrite IH.
    destruct (Ascii.eqb c sep); [done|].
    pose proof (split_not_nil sep a). by destruct (Js.split sep a).
Qed.

Lemma scanFrom_append (st : ParserState) (a b : string) :
  scanFrom st (a +:+ String Js.nl b) = scanFrom (scanFrom st a) b.
Proof. unfold scanFrom. by rewrite split_append, fold_left_app. Qed.

(** A line emits at most one block, behind those emitted before. *)
Lemma parseLine_emits (st : ParserState) (line : string) :
  slices (parseLine st line) = slices st ∨
  ∃ block, slices (parseLine st line) = slices st ++ [block].
Proof.
  unfold parseLine.
  destruct (String.eqb (Js.trim line) "subsets {").
  { destruct (currentSlice st); simpl; eauto. }
  destruct (Js.startsWith (Js.trim line) "codepoints:").
  { destruct (matchCodepoints (Js.trim line)), (currentSlice st); simpl; eauto. }
  destruct (String.eqb (Js.trim line) "}"); [|eauto].
  destruct (currentSlice st) as [[|x cur]|]; simpl; eauto.
Qed.

Lemma scan_lines_prefix (lines : list string) (st : ParserState) :
  slices st `prefix_of` slices (fold_left parseLine lines st).
Proof.
  revert st. induction lines as [|line lines IH]; intros st; [done|].
  simpl. etrans; [|apply IH].
  destruct (parseLine_emits st line) as [->|[block ->]]; [done|].
  by apply prefix_app_r.
Qed.

(** The blocks are emitted in the order of the text: reading on only adds
    blocks behind those emitted so far. *)
Lemma scan_prefix (pre rest : string) :
  slices (scan pre) `prefix_of` slices (scan (pre +:+ String Js.nl rest)).
Proof. unfold scan. rewrite scanFrom_append. apply scan_lines_prefix. Qed.

(** A line that is neither marker emits nothing. *)
Lemma parseLine_no_marker (st : ParserState) (line : string) :
  Js.trim line ≠ "subsets {" → Js.trim line ≠ "}" →
  slices (parseLine st line) = slices st.
Proof.
  intros Hopen Hclose. unfold parseLine.
  apply String.eqb_neq in Hopen, Hclose. rewrite Hopen, Hclose.
  destruct (Js.startsWith (Js.trim line) "codepoints:"); [|done].
  by destruct (matchCodepoints (Js.trim line)), (currentSlice st).
Qed.

Lemma scanFrom_no_marker (body : string) (st : ParserState) :
  Forall (λ line, Js.trim line ≠ "subsets {" ∧ Js.trim line ≠ "}")
    (Js.split Js.nl body) →
  slices (scanFrom st body) = slices st.
Proof.
  unfold scanFrom. generalize (Js.split Js.nl body). intros lines.
  revert st. induction lines as [|line lines IH]; intros st Hall; [done|].
  apply Forall_cons in Hall as [[Hopen Hclose] Hall].
  simpl. rewrite IH by done. by apply parseLine_no_marker.
Qed.

(** The state at a line start: the text before is empty or ends with a
    line feed. *)
Lemma scan_at_line_start (pre : string) :
  pre = "" ∨ (∃ p, pre = p +:+ Sample.nl) →
  ∃ st, ∀ rest, scan (pre +:+ rest) = scanFrom st rest.
Proof.
  intros [->|[p ->]].
  - by exists initialState.
  - exists (scan p). intros rest. unfold scan, Sample.nl.
    by rewrite append_assoc, append_cons, append_nil_l, scanFrom_append.
Qed.

End ParserFacts.

(** The claim C9 as it is written fails on the text of the test "an empty
    but valid slicing strategy file": the block is opened and closed with
    no codepoint, and no slice is emitted. *)
Lemma empty_block_counterexample :
  Subsets.parseSlicingStrategy ("subsets {" +:+ Sample.nl +:+ "}") = [] ∧
  [] ∉ Subsets.parseSlicingStrategy ("subsets {" +:+ Sample.nl +:+ "}").
Proof. split; [reflexivity|]. vm_compute. inversion 1. Qed.

(** C9, amended.  A block that is opened and then closed having
    accumulated zero codepoints emits no slice at its closing marker; it is
    emitted as an empty slice only by a block-opening marker that follows.
    A block after whose opening marker no line is a closing or an opening
    marker before the end of the input is dropped and emits no slice. *)
Theorem empty_and_unclosed_blocks (pre : string) :
  pre = "" ∨ (∃ p, pre = p +:+ Sample.nl) →
  let opened := pre +:+ "subsets {" in
  Subsets.parseSlicingStrategy (opened +:+ Sample.nl +:+ "}")
  = Subsets.parseSlicingStrategy opened ∧
  Subsets.parseSlicingStrategy
    (opened +:+ Sample.nl +:+ "}" +:+ Sample.nl +:+ "subsets {")
  = [] :: Subsets.parseSlicingStrategy opened ∧
  ∀ body,
    Forall (λ line, Js.trim line ≠ "subsets {" ∧ Js.trim line ≠ "}")
      (Js.split Js.nl body) →
    Subsets.parseSlicingStrategy (opened +:+ Sample.nl +:+ body)
    = Subsets.parseSlicingStrategy opened.
Proof.
  intros Hpre opened. destruct (scan_at_line_start pre Hpre) as [st Hst].
  unfold Subsets.parseSlicingStrategy, opened.
  rewrite !append_assoc, !Hst.
  change (Sample.nl +:+ "}" +:+ Sample.nl +:+ "subsets {")
    with (String Js.nl ("}" +:+ String Js.nl "subsets {")).
  change (Sample.nl +:+ "}") with (String Js.nl "}").
  rewrite !scanFrom_append.
  assert (Hopened : Subsets.currentSlice (Subsets.scanFrom st "subsets {") = Some []).
  { by destruct st as [emitted [cur|]]. }
  assert (Hclosed : Subsets.scanFrom (Subsets.scanFrom st "subsets {") "}"
                    = Subsets.scanFrom st "subsets {").
  { destruct (Subsets.scanFrom st "subsets {") as [emitted cur].
    simpl in Hopened. by subst cur. }
  rewrite Hclosed. split; [done|]. split.
  - destruct (Subsets.scanFrom st "subsets {") as [emitted cur].
    simpl in Hopened. subst cur.
    change (rev (emitted ++ [[]]) = [] :: rev emitted). by rewrite rev_unit.
  - intros body Hbody. rewrite append_assoc, Hst.
    change (Sample.nl +:+ body) with (String Js.nl body).
    by rewrite scanFrom_append, scanFrom_no_marker.
Qed.

Lemma empty_and_unclosed_blocks_witness :
  let opened :=
    ("subsets {" +:+ Sample.nl +:+ "codepoints: 1" +:+ Sample.nl +:+ "}" +:+
     Sample.nl) +:+ "subsets {" in
  Subsets.parseSlicingStrategy (opened +:+ Sample.nl +:+ "}")
  = Subsets.parseSlicingStrategy opened ∧
  Subsets.parseSlicingStrategy
    (opened +:+ Sample.nl +:+ "}" +:+ Sample.nl +:+ "subsets {")
  = [] :: Subsets.parseSlicingStrategy opened ∧
  ∀ body,
    Forall (λ line, Js.trim line ≠ "subsets {" ∧ Js.trim line ≠ "}")
      (Js.split Js.nl body) →
    Subsets.parseSlicingStrategy (opened +:+ Sample.nl +:+ body)
    = Subsets.parseSlicingStrategy opened.
Proof.
  apply (empty_and_unclosed_blocks
           ("subsets {" +:+ Sample.nl +:+ "codepoints: 1" +:+ Sample.nl +:+ "}" +:+
            Sample.nl)).
  right. exists ("subsets {" +:+ Sample.nl +:+ "codepoints: 1" +:+ Sample.nl +:+ "}").
  reflexivity.
Defined.

(** ** Texts in the slicing format *)
Section SlicingTextFacts.

Import Subsets.

Lemma uint_string_digits (d : Decimal.uint) :
  Js.allChars isDigit (DecimalString.NilEmpty.string_of_uint d) = true.
Proof. induction d; simpl; auto. Qed.

(** A rendered natural number is a non-empty string of digits. *)
Lemma showN_digits (n : N) :
  Js.allChars isDigit (Js.showN n) = true ∧ Js.showN n ≠ "".
Proof.
  unfold Js.showN, DecimalString.NilZero.string_of_uint.
  destruct (N.to_uint n) eqn:Hn; try done;
    (split; [apply (uint_string_digits (_ _))|done]).
Qed.

Lemma parse_decimal_acc (d : Decimal.uint) (acc : positive) :
  parseDigits 10 (Some (Npos acc)) (DecimalString.NilEmpty.string_of_uint d)
  = Some (Npos (Pos.of_uint_acc d acc)).
Proof.
  revert acc. induction d; intros acc; [done|..];
    cbn -[N.mul N.add Pos.mul Pos.add]; rewrite <- IHd; do 2 f_equal;
    match goal with
    | |- context [N_of_ascii ?c - ?k] =>
        let v := eval vm_compute in (N_of_ascii c - k) in
        change (N_of_ascii c - k) with v
    end; lia.
Qed.

Lemma parse_decimal (d : Decimal.uint) :
  parseDigits 10 (Some 0) (DecimalString.NilEmpty.string_of_uint d)
  = Some (Pos.of_uint d).
Proof.
  induction d; [done|exact IHd|..];
    cbn -[N.mul N.add Pos.mul Pos.add Pos.of_uint_acc];
    apply (parse_decimal_acc d).
Qed.

(** Reading a rendered natural number in base 10 gives the number back. *)
Lemma showN_value (n : N) : parseDigits 10 None (Js.showN n) = Some n.
Proof.
  rewrite <- (DecimalN.Unsigned.of_to n) at 2.
  unfold Js.showN, DecimalString.NilZero.string_of_uint, N.of_uint.
  destruct (N.to_uint n) as [|d|d|d|d|d|d|d|d|d|d]; [done|..];
    try (apply (parse_decimal_acc d)).
  apply (parse_decimal d).
Qed.

Lemma digit_not_space (c : ascii) :
  isDigit c = true → Js.isWhiteSpace c = false.
Proof.
  unfold isDigit, Js.isWhiteSpace. intros [H1 H2]%andb_true_iff.
  apply N.leb_le in H1, H2.
  assert (N_of_ascii c = 48 ∨ N_of_ascii c = 49 ∨ N_of_ascii c = 50 ∨
          N_of_ascii c = 51 ∨ N_of_ascii c = 52 ∨ N_of_ascii c = 53 ∨
          N_of_ascii c = 54 ∨ N_of_ascii c = 55 ∨ N_of_ascii c = 56 ∨
          N_of_ascii c = 57) as Hc by lia.
  repeat (destruct Hc as [->|Hc]; [done|]). by rewrite Hc.
Qed.

Lemma digit_not_nl (c : ascii) : isDigit c = true → Ascii.eqb c Js.nl = false.
Proof.
  intros Hc. destruct (Ascii.eqb_spec c Js.nl) as [->|]; [|done].
  by vm_compute in Hc.
Qed.

Lemma trimStart_digits (d : string) :
  Js.allChars isDigit d = true → Js.trimStart d = d.
Proof.
  destruct d as [|c d]; [done|]. simpl.
  intros [Hc _]%andb_true_iff. by rewrite digit_not_space.
Qed.

(** [trimEnd] leaves a text that ends with a digit as it is. *)
Lemma trimEnd_digits (d : string) : Js.allChars isDigit d = true → Js.trimEnd d = d.
Proof.
  induction d as [|c d IH]; [done|]. simpl.
  intros [Hc Hd]%andb_true_iff. rewrite IH by done.
  destruct d; [by rewrite digit_not_space|done].
Qed.

Lemma trimEnd_append (a b : string) :
  b ≠ "" → Js.trimEnd b = b → Js.trimEnd (a +:+ b) = a +:+ b.
Proof.
  intros Hne Hb. induction a as [|c a IH]; [done|].
  rewrite append_cons. simpl. rewrite IH.
  destruct (a +:+ b) eqn:Hab; [|done]. by destruct a, b.
Qed.

Lemma digitsPrefix_digits (d : string) :
  Js.allChars isDigit d = true → digitsPrefix d = d.
Proof.
  induction d as [|c d IH]; [done|]. simpl.
  intros [Hc Hd]%andb_true_iff. by rewrite Hc, IH.
Qed.

Lemma substring_all (s : string) : String.substring 0 (String.length s) s = s.
Proof. induction s as [|c s IH]; [done|]. simpl. by rewrite IH. Qed.

Lemma length_append (a b : string) :
  String.length (a +:+ b) = (String.length a + String.length b)%nat.
Proof. induction a as [|c a IH]; [done|]. rewrite append_cons. simpl. by rewrite IH. Qed.

(** The pattern [/codepoints: (\d+)/] on a codepoint line captures the
    number. *)
Lemma matchCodepoints_line (d : string) :
  Js.allChars isDigit d = true → d ≠ "" →
  matchCodepoints ("codepoints: " +:+ d) = Some d.
Proof.
  intros Hd Hne.
  assert (Hhere :
    (if Js.startsWith ("codepoints: " +:+ d) "codepoints: "
     then digitsPrefix
            (String.substring 12 (String.length ("codepoints: " +:+ d) - 12)
               ("codepoints: " +:+ d))
     else "") = d).
  { rewrite startsWith_append, length_append.
    replace (String.length "codepoints: " + String.length d - 12)%nat
      with (String.length d) by (simpl; lia).
    change (String.substring 12 (String.length d) ("codepoints: " +:+ d))
      with (String.substring 0 (String.length d) d).
    by rewrite substring_all, digitsPrefix_digits. }
  rewrite !append_cons, append_nil_l in *.
  unfold matchCodepoints; fold matchCodepoints.
  rewrite Hhere. by destruct d.
Qed.

(** The three kinds of lines of the format. *)
Lemma parseLine_open (st : ParserState) :
  currentSlice st = None →
  parseLine st "subsets {" = {| slices := slices st; currentSlice := Some [] |}.
Proof. intros Hst. unfold parseLine. simpl. by rewrite Hst. Qed.

Lemma parseLine_codepoint (st : ParserState) (cur : list N) (n : N) :
  currentSlice st = Some cur →
  parseLine st ("  codepoints: " +:+ Js.showN n)
  = {| slices := slices st; currentSlice := Some (cur ++ [n]) |}.
Proof.
  intros Hst. destruct (showN_digits n) as [Hdigits Hne].
  unfold parseLine.
  assert (Htrim : Js.trim ("  codepoints: " +:+ Js.showN n)
                  = "codepoints: " +:+ Js.showN n).
  { unfold Js.trim.
    change (Js.trimStart ("  codepoints: " +:+ Js.showN n))
      with ("codepoints: " +:+ Js.showN n).
    by apply trimEnd_append, trimEnd_digits. }
  rewrite Htrim.
  change (String.eqb ("codepoints: " +:+ Js.showN n) "subsets {") with false.
  change (Js.startsWith ("codepoints: " +:+ Js.showN n) "codepoints:") with true.
  cbv iota. rewrite matchCodepoints_line, Hst by done.
  unfold parseInt. rewrite (trimStart_digits (Js.showN n)) by done.
  simpl. by rewrite showN_value.
Qed.

Lemma parseLine_close (st : ParserState) (x : N) (cur : list N) :
  currentSlice st = Some (x :: cur) →
  parseLine st "}" = {| slices := slices st ++ [x :: cur]; currentSlice := None |}.
Proof. intros Hst. unfold parseLine. simpl. by rewrite Hst. Qed.

Lemma scan_codepoints (codepoints : list N) (st : ParserState) (cur : list N) :
  currentSlice st = Some cur →
  fold_left parseLine (map (λ n, "  codepoints: " +:+ Js.showN n) codepoints) st
  = {| slices := slices st; currentSlice := Some (cur ++ codepoints) |}.
Proof.
  revert st cur. induction codepoints as [|n codepoints IH]; intros st cur Hst.
  - simpl. rewrite app_nil_r. by destruct st; simpl in *; subst.
  - simpl. rewrite (parseLine_codepoint st cur n Hst).
    rewrite (IH _ (cur ++ [n])) by done. simpl. by rewrite <- app_assoc.
Qed.

(** A block with at least one codepoint is emitted at its closing marker. *)
Lemma scan_block (codepoints : list N) (st : ParserState) :
  currentSlice st = None → codepoints ≠ [] →
  fold_left parseLine (blockLines codepoints) st
  = {| slices := slices st ++ [codepoints]; currentSlice := None |}.
Proof.
  intros Hst Hne. unfold blockLines. rewrite !fold_left_app. simpl.
  rewrite (parseLine_open st Hst), (scan_codepoints codepoints _ []) by done.
  simpl. destruct codepoints as [|x cps]; [done|].
  by rewrite (parseLine_close _ x cps).
Qed.

Lemma scan_blocks (blocks : list (list N)) (st : ParserState) :
  currentSlice st = None → Forall (λ block, block ≠ []) blocks →
  fold_left parseLine (flat_map blockLines blocks) st
  = {| slices := slices st ++ blocks; currentSlice := None |}.
Proof.
  revert st. induction blocks as [|block blocks IH]; intros st Hst Hall.
  - simpl. rewrite app_nil_r. by destruct st; simpl in *; subst.
  - apply Forall_cons in Hall as [Hblock Hall].
    change (flat_map blockLines (block :: blocks))
      with (blockLines block ++ flat_map blockLines blocks).
    rewrite fold_left_app, (scan_block block st), IH by done.
    simpl. by rewrite <- app_assoc.
Qed.

(** Lines without a line feed, joined by line feeds, split into
    themselves. *)
Lemma split_line (line : string) :
  Js.allChars (λ c, negb (Ascii.eqb c Js.nl)) line = true →
  Js.split Js.nl line = [line].
Proof.
  induction line as [|c line IH]; [done|]. simpl.
  intros [Hc Hline]%andb_true_iff. apply negb_true_iff in Hc.
  by rewrite Hc, IH.
Qed.

Lemma split_join (lines : list string) :
  lines ≠ [] →
  Forall (λ line, Js.allChars (λ c, negb (Ascii.eqb c Js.nl)) line = true) lines →
  Js.split Js.nl (Js.join (String Js.nl "") lines) = lines.
Proof.
  induction lines as [|line lines IH]; [done|]. intros _ Hall.
  apply Forall_cons in Hall as [Hline Hall].
  destruct lines as [|next lines]; [by apply split_line|].
  change (Js.join (String Js.nl "") (line :: next :: lines))
    with (line +:+ String Js.nl "" +:+ Js.join (String Js.nl "") (next :: lines)).
  rewrite append_cons, append_nil_l, split_append, split_line, IH by done.
  done.
Qed.

Lemma allChars_append (p : ascii → bool) (a b : string) :
  Js.allChars p (a +:+ b) = Js.allChars p a && Js.allChars p b.
Proof.
  induction a as [|c a IH]; [done|]. rewrite append_cons. simpl.
  by rewrite IH, andb_assoc.
Qed.

Lemma blockLines_no_nl (blocks : list (list N)) :
  Forall (λ line, Js.allChars (λ c, negb (Ascii.eqb c Js.nl)) line = true)
    (flat_map blockLines blocks).
Proof.
  apply Forall_forall. intros line (block & _ & Hline)%elem_of_flat_map.
  unfold blockLines in Hline.
  rewrite !elem_of_app, !list_elem_of_singleton, list_elem_of_fmap in Hline.
  destruct Hline as [->|[(n & -> & _)| ->]]; [done| |done].
  rewrite allChars_append. apply andb_true_iff. split; [done|].
  apply (allChars_impl isDigit); [|apply showN_digits].
  intros c Hc. by rewrite digit_not_nl.
Qed.

(** A text of blocks in the slicing format, each with at least one
    codepoint, is read as these blocks in the reverse order. *)
Lemma parse_slicingText (blocks : list (list N)) :
  Forall (λ block, block ≠ []) blocks →
  parseSlicingStrategy (slicingText blocks) = rev blocks.
Proof.
  intros Hall. unfold parseSlicingStrategy, scan, scanFrom, slicingText.
  destruct blocks as [|block blocks]; [done|].
  rewrite split_join.
  - by rewrite scan_blocks.
  - by destruct block.
  - apply blockLines_no_nl.
Qed.

End SlicingTextFacts.

(** ** The subset data *)
Section SubsetDataFacts.

Context {Error : Type}.

Import Subsets.

(** The entry of [name] after the loop has run over [names]. *)
Lemma loadSubset_lookup (sources : gmap string string) (names : list string)
    (acc : gmap string SubsetDefinition * list (Warning Error)) (name : string) :
  (fold_left (loadSubset sources) names acc).1 !! name =
    match sources !! name with
    | Some (String c text) =>
        if decide (name ∈ names) then Some (definitionOf name (String c text))
        else acc.1 !! name
    | _ => acc.1 !! name
    end.
Proof.
  revert acc. induction names as [|n names IH]; intros [subsetData log].
  { simpl. by destruct (sources !! name) as [[|c text]|]. }
  change (fold_left (loadSubset sources) (n :: names) (subsetData, log))
    with (fold_left (loadSubset sources) names
            (loadSubset sources (subsetData, log) n)).
  rewrite IH.
  assert (Hstep : (loadSubset sources (subsetData, log) n).1 !! name =
            match sources !! name with
            | Some (String c text) =>
                if decide (name = n) then Some (definitionOf name (String c text))
                else subsetData !! name
            | _ => subsetData !! name
            end).
  { unfold loadSubset.
    destruct (decide (name = n)) as [<-|Hne].
    - destruct (sources !! name) as [[|c text]|]; try done.
      unfold definitionOf. destruct (Js.includes _ _); simpl;
        by rewrite lookup_insert_eq.
    - destruct (sources !! n) as [[|c' text']|];
        [|destruct (Js.includes _ _)|]; cbn [fst];
        rewrite ?lookup_insert_ne by done;
        by destruct (sources !! name) as [[|c text]|]. }
  rewrite Hstep. destruct (sources !! name) as [[|c text]|]; try done.
  destruct (decide (name = n)) as [->|Hne].
  - rewrite (decide_True (P := n ∈ n :: names)) by apply list_elem_of_here.
    by destruct (decide (n ∈ names)).
  - destruct (decide (name ∈ names)) as [Hin|Hnin].
    + by rewrite decide_True by by apply list_elem_of_further.
    + rewrite decide_False; [done|]. by intros [?|?]%elem_of_cons.
Qed.

(** The entry of a requested subset with a source text. *)
Lemma generateSubsetData_lookup (config : FontBuildConfig) (name : string)
    (c : ascii) (text : string) :
  name ∈ Config.subsets (baseOf config) →
  Config.subsetSources (baseOf config) !! name = Some (String c text) →
  (generateSubsetData (Error := Error) config).1 !! name
  = Some (definitionOf name (String c text)).
Proof.
  intros Hin Hsource. unfold generateSubsetData.
  rewrite loadSubset_lookup, Hsource. by rewrite decide_True.
Qed.

(** The slices after indexing: slice [i] (from 0) has index [i + 1]. *)
Lemma indexSlices_lookup (blocks : list (list N)) (i : nat) :
  indexSlices blocks !! i =
    (λ codepoints, {| Slice.index := N.of_nat i + 1; Slice.codepoints := codepoints |})
      <$> blocks !! i.
Proof. unfold indexSlices. by rewrite list_lookup_imap. Qed.



Lemma rev_reverse {A} (l : list A) : rev l = reverse l.
Proof. apply rev_alt. Qed.

Lemma indexSlices_length (blocks : list (list N)) :
  length (indexSlices blocks) = length blocks.
Proof. unfold indexSlices. by rewrite length_imap. Qed.

Lemma indexSlices_indices (blocks : list (list N)) :
  map Slice.index (indexSlices blocks) = map N.of_nat (seq 1 (length blocks)).
Proof.
  apply list_eq. intros i. rewrite !list_lookup_fmap, indexSlices_lookup.
  destruct (blocks !! i) as [b|] eqn:Hb; simpl.
  - rewrite lookup_seq_lt by by eapply lookup_lt_Some.
    simpl. f_equal. lia.
  - by rewrite lookup_seq_ge by by apply lookup_ge_None.
Qed.

(** The definition of a text of blocks in the slicing format: the last
    block of the text is the slice of index 1. *)
Lemma slicingText_definition (name : string) (blocks : list (list N)) :
  blocks ≠ [] → Forall (λ block, block ≠ []) blocks →
  definitionOf name (slicingText blocks)
  = sliced name (indexSlices (rev blocks)).
Proof.
  intros Hne Hall. unfold definitionOf. rewrite parse_slicingText by done.
  assert (Hincludes : Js.includes (slicingText blocks) "subsets {" = true).
  { destruct blocks as [|block blocks]; [done|].
    unfold slicingText.
    change (flat_map blockLines (block :: blocks))
      with ("subsets {" ::
            (map (λ n, "  codepoints: " +:+ Js.showN n) block ++ ["}"]) ++
            flat_map blockLines blocks).
    destruct ((map (λ n, "  codepoints: " +:+ Js.showN n) block ++ ["}"]) ++
              flat_map blockLines blocks) as [|line lines] eqn:Hlines.
    { by destruct block. }
    change (Js.join (String Js.nl "") ("subsets {" :: line :: lines))
      with ("subsets {" +:+ String Js.nl "" +:+
            Js.join (String Js.nl "") (line :: lines)).
    destruct ("subsets {" +:+ String Js.nl "" +:+
              Js.join (String Js.nl "") (line :: lines)) eqn:Htext; [done|].
    unfold Js.includes; fold Js.includes. rewrite <- Htext.
    by rewrite prefix_append. }
  by rewrite Hincludes.
Qed.

End SubsetDataFacts.

(** C2.  For every sliced subset source text, the slices of the resulting
    [SubsetDefinition] carry the indices 1, 2, ..., N in this order, and
    they hold the emitted blocks in the reverse of the order in which the
    blocks appear in the source text: the block emitted as number [i]
    (from 0) is the slice of index [N - i], and the block emitted last is
    the slice of index 1.  The blocks are emitted in the order of the text:
    the blocks emitted from a part of the text up to a line end stay, in
    their order, in front of those emitted from the whole text. *)
Theorem slice_indices_dense_reversed {Error : Type} (config : FontBuildConfig)
    (name fileContent : string) :
  name ∈ Config.subsets (baseOf config) →
  Config.subsetSources (baseOf config) !! name = Some fileContent →
  Js.includes fileContent "subsets {" = true →
  let emitted := Subsets.slices (Subsets.scan fileContent) in
  ∃ slices,
    (Subsets.generateSubsetData (Error := Error) config).1 !! name
    = Some (sliced name slices) ∧
    map Slice.index slices = map N.of_nat (seq 1 (length emitted)) ∧
    (∀ (i : nat) block,
       emitted !! i = Some block →
       slices !! (length emitted - 1 - i)%nat
       = Some {| Slice.index := N.of_nat (length emitted - i);
                 Slice.codepoints := block |}) ∧
    (∀ block,
       last emitted = Some block →
       slices !! 0%nat = Some {| Slice.index := 1; Slice.codepoints := block |}) ∧
    (∀ pre rest,
       fileContent = pre +:+ String Js.nl rest →
       Subsets.slices (Subsets.scan pre) `prefix_of` emitted).
Proof.
  intros Hname Hsource Hsliced emitted.
  destruct fileContent as [|c text]; [done|].
  exists (Subsets.indexSlices (rev emitted)).
  assert (Hat : ∀ (i : nat) block,
             emitted !! i = Some block →
             Subsets.indexSlices (rev emitted) !! (length emitted - 1 - i)%nat
             = Some {| Slice.index := N.of_nat (length emitted - i);
                       Slice.codepoints := block |}).
  { intros i block Hi. pose proof (lookup_lt_Some _ _ _ Hi) as Hlt.
    rewrite indexSlices_lookup, rev_reverse, reverse_lookup by lia.
    replace (length emitted - S (length emitted - 1 - i))%nat with i by lia.
    rewrite Hi. simpl. do 2 f_equal. lia. }
  split; [|split; [|split; [|split]]].
  - rewrite (generateSubsetData_lookup config name c text Hname Hsource).
    unfold Subsets.definitionOf.
    by destruct (Js.includes (String c text) "subsets {").
  - by rewrite indexSlices_indices, length_rev.
  - exact Hat.
  - intros block Hlast. rewrite last_lookup in Hlast.
    pose proof (lookup_lt_Some _ _ _ Hlast) as Hlt.
    specialize (Hat _ _ Hlast).
    replace (length emitted - 1 - pred (length emitted))%nat with 0%nat in Hat by lia.
    replace (length emitted - pred (length emitted))%nat with 1%nat in Hat by lia.
    exact Hat.
  - intros pre rest Htext. unfold emitted. rewrite Htext. apply scan_prefix.
Qed.

Lemma slice_indices_dense_reversed_witness :
  ∃ slices,
    (Subsets.generateSubsetData (Error := unit) Sample.japaneseConfig).1 !! "japanese"
    = Some (sliced "japanese" slices) ∧
    map Slice.index slices = [1; 2] ∧
    slices !! 0%nat = Some {| Slice.index := 1; Slice.codepoints := [12356] |} ∧
    slices !! 1%nat = Some {| Slice.index := 2; Slice.codepoints := [12353; 12354] |}.
Proof.
  destruct (slice_indices_dense_reversed (Error := unit) Sample.japaneseConfig
              "japanese" Sample.japaneseSource)
    as (slices & Hlookup & Hindices & Hat & Hlast & _).
  - vm_compute. constructor.
  - reflexivity.
  - reflexivity.
  - exists slices. split; [exact Hlookup|]. split; [exact Hindices|]. split.
    + exact (Hlast [12356] eq_refl).
    + exact (Hat 0%nat [12353; 12354] eq_refl).
Defined.

(** ** The weights to process *)
Section TargetFacts.

Import Processor.

Lemma elem_of_setAdd `{EqDecision A} (set : list A) (x y : A) :
  y ∈ Js.setAdd set x ↔ y ∈ set ∨ y = x.
Proof.
  unfold Js.setAdd. destruct (decide (x ∈ set)).
  - split; [auto|]. by intros [?| ->].
  - rewrite elem_of_app, list_elem_of_singleton. tauto.
Qed.

Lemma NoDup_setAdd `{EqDecision A} (set : list A) (x : A) :
  NoDup set → NoDup (Js.setAdd set x).
Proof.
  intros Hset. unfold Js.setAdd. destruct (decide (x ∈ set)); [done|].
  apply NoDup_app. split; [done|]. split; [|apply NoDup_singleton].
  intros y Hy ->%list_elem_of_singleton. done.
Qed.

Ltac solve_elem_of :=
  repeat first [apply list_elem_of_here | apply list_elem_of_further].

Lemma standardWeights_spec (w : Z) :
  w ∈ standardWeights ↔ ((100 | w) ∧ 100 ≤ w ≤ 1000)%Z.
Proof.
  unfold standardWeights. split.
  - rewrite !elem_of_cons, elem_of_nil.
    intros H.
    repeat (destruct H as [->|H];
            [split; [apply Z.mod_divide; [lia|reflexivity]|lia]|]).
    done.
  - intros [[k ->] Hrange].
    assert (k = 1 ∨ k = 2 ∨ k = 3 ∨ k = 4 ∨ k = 5 ∨ k = 6 ∨ k = 7 ∨ k = 8 ∨
            k = 9 ∨ k = 10)%Z as Hk by lia.
    repeat (destruct Hk as [->|Hk]; [solve_elem_of|]). subst. solve_elem_of.
Qed.

(** The loop over the standard weights adds those within the range. *)
Lemma standard_loop_spec (min max : Z) (ws : list Z) (set : list Z) (w : Z) :
  w ∈ fold_left
        (λ s w, if (min <=? w)%Z && (w <=? max)%Z then Js.setAdd s w else s)
        ws set
  ↔ w ∈ set ∨ (w ∈ ws ∧ (min ≤ w ≤ max)%Z).
Proof.
  revert set. induction ws as [|x ws IH]; intros set; simpl.
  - rewrite elem_of_nil. tauto.
  - rewrite IH, elem_of_cons.
    destruct (Z.leb_spec min x), (Z.leb_spec x max); simpl;
      rewrite ?elem_of_setAdd; intuition (subst; auto; lia).
Qed.

Lemma standard_loop_NoDup (min max : Z) (ws : list Z) (set : list Z) :
  NoDup set →
  NoDup (fold_left
           (λ s w, if (min <=? w)%Z && (w <=? max)%Z then Js.setAdd s w else s)
           ws set).
Proof.
  revert set. induction ws as [|x ws IH]; intros set Hset; [done|].
  simpl. apply IH. destruct (_ && _); [by apply NoDup_setAdd|done].
Qed.

Lemma addFontWeights_spec (set : list Z) (font : FontRef.t) (w : Z) :
  w ∈ addFontWeights set font ↔ w ∈ set ∨ offersWeight font w.
Proof.
  unfold addFontWeights, offersWeight.
  destruct (FontRef.weight (FontRef.values font)) as [value|value].
  - apply elem_of_setAdd.
  - rewrite standard_loop_spec, standardWeights_spec.
    destruct (Z.eqb_spec (Utils.defaultValue value) 0); simpl;
      rewrite ?elem_of_setAdd; intuition congruence.
Qed.

Lemma addFontWeights_NoDup (set : list Z) (font : FontRef.t) :
  NoDup set → NoDup (addFontWeights set font).
Proof.
  intros Hset. unfold addFontWeights.
  destruct (FontRef.weight (FontRef.values font)) as [value|value].
  - by apply NoDup_setAdd.
  - apply standard_loop_NoDup.
    destruct (negb _); repeat apply NoDup_setAdd; done.
Qed.

Lemma availableWeights_spec (fontRefs : list FontRef.t) (set : list Z) (w : Z) :
  w ∈ fold_left addFontWeights fontRefs set
  ↔ w ∈ set ∨ ∃ font, font ∈ fontRefs ∧ offersWeight font w.
Proof.
  revert set. induction fontRefs as [|font fontRefs IH]; intros set; simpl.
  - split; [auto|]. intros [?|(font & []%elem_of_nil & _)]. done.
  - rewrite IH, addFontWeights_spec. split.
    + intros [[?|?]|(f & ? & ?)]; eauto using list_elem_of_here, list_elem_of_further.
    + intros [?|(f & [->|?]%elem_of_cons & ?)]; eauto.
Qed.

Lemma availableWeights_NoDup (fontRefs : list FontRef.t) (set : list Z) :
  NoDup set → NoDup (fold_left addFontWeights fontRefs set).
Proof.
  revert set. induction fontRefs as [|font fontRefs IH]; intros set Hset; [done|].
  simpl. by apply IH, addFontWeights_NoDup.
Qed.

(** Sorting a list without duplicates gives a strictly ascending list. *)
Lemma sortWeights_sorted (l : list Z) :
  NoDup l → StronglySorted Z.lt (sortWeights l).
Proof.
  intros Hl. unfold sortWeights.
  assert (Hsorted : StronglySorted Z.le (merge_sort Z.le l)).
  { apply StronglySorted_merge_sort; [apply _|]. intros x y. lia. }
  assert (Hnodup : NoDup (merge_sort Z.le l)).
  { by rewrite merge_sort_Permutation. }
  induction Hsorted as [|x xs Hxs IH Hall]; [constructor|].
  apply NoDup_cons in Hnodup as [Hx Hnodup].
  constructor; [by apply IH|].
  rewrite Forall_forall in *. intros y Hy.
  specialize (Hall y Hy). assert (x ≠ y) by (intros ->; done). lia.
Qed.

End TargetFacts.

(** C3.  When the weights are inferred from the loaded fonts (the config
    is not a static config with a non-empty weight list), the weights to
    process are, for each font of fixed weight its single value, and for
    each font with a weight range its minimum, its maximum, its declared
    default when that is not zero, and every multiple of 100 from 100 to
    1000 within the range; they are distinct and sorted ascending. *)
Theorem inferred_weights (fontRefs : list FontRef.t) (config : FontBuildConfig) :
  match config with
  | StaticFontBuildConfig _ weights _ => Processor.hasLength weights = false
  | VariableFontBuildConfig _ _ _ => True
  end →
  let weightsToProcess := (Processor.determineProcessingTargets fontRefs config).1 in
  StronglySorted Z.lt weightsToProcess ∧
  ∀ w, w ∈ weightsToProcess
       ↔ ∃ font, font ∈ fontRefs ∧ Processor.offersWeight font w.
Proof.
  intros Hinferred weightsToProcess.
  assert (Hweights : weightsToProcess
            = Processor.sortWeights (fold_left Processor.addFontWeights fontRefs [])).
  { unfold weightsToProcess. destruct config as [base [[|w ws]|] styles|]; done. }
  rewrite Hweights. split.
  - apply sortWeights_sorted, availableWeights_NoDup, NoDup_nil_2.
  - intros w. unfold Processor.sortWeights.
    rewrite merge_sort_Permutation, availableWeights_spec, elem_of_nil. tauto.
Qed.

Lemma inferred_weights_witness :
  (Processor.determineProcessingTargets [Sample.interVariable; Sample.interItalic]
     (StaticFontBuildConfig Sample.latinBase None None)).1
  = [100; 200; 300; 400; 500; 600; 700; 800; 900]%Z ∧
  StronglySorted Z.lt
    (Processor.determineProcessingTargets [Sample.interVariable; Sample.interItalic]
       (StaticFontBuildConfig Sample.latinBase None None)).1.
Proof.
  split; [reflexivity|].
  apply (inferred_weights [Sample.interVariable; Sample.interItalic]
           (StaticFontBuildConfig Sample.latinBase None None)).
  reflexivity.
Defined.

(** ** Numbers in template literals *)
Section ShowFacts.

Lemma string_of_uint_digits (d : Decimal.uint) :
  Js.allChars Subsets.isDigit (DecimalString.NilEmpty.string_of_uint d) = true.
Proof. induction d; simpl; auto. Qed.

(** A rendered integer consists of digits and, in front, a minus sign. *)
Lemma showZ_chars (z : Z) : Js.allChars Subsets.isDigitOrMinus (Js.showZ z) = true.
Proof.
  unfold Js.showZ, DecimalString.NilZero.string_of_int.
  assert (Hu : ∀ d, Js.allChars Subsets.isDigitOrMinus
                      (DecimalString.NilZero.string_of_uint d) = true).
  { intros d. unfold DecimalString.NilZero.string_of_uint.
    destruct d; try done;
      apply (allChars_impl Subsets.isDigit); try apply string_of_uint_digits;
      intros c Hc; unfold Subsets.isDigitOrMinus; by rewrite Hc. }
  destruct (Z.to_int z); [apply Hu|]. simpl. apply Hu.
Qed.

Lemma to_int_not_nil (z : Z) :
  Z.to_int z ≠ Decimal.Pos Decimal.Nil ∧ Z.to_int z ≠ Decimal.Neg Decimal.Nil.
Proof.
  split; intros Hz; pose proof (DecimalZ.of_to z) as Hof; rewrite Hz in Hof;
    simpl in Hof; subst z; discriminate Hz.
Qed.

Lemma showZ_inj (a b : Z) : Js.showZ a = Js.showZ b → a = b.
Proof.
  unfold Js.showZ. intros Hab. apply DecimalZ.to_int_inj.
  destruct (to_int_not_nil a), (to_int_not_nil b).
  pose proof (DecimalString.NilZero.isi (Z.to_int a)) as Ha.
  pose proof (DecimalString.NilZero.isi (Z.to_int b)) as Hb.
  rewrite Hab in Ha. rewrite Ha in Hb by done. by injection Hb; auto.
Qed.

(** File names of style sheets: which of them coincide. *)
Lemma css_name_inj (s1 s2 : string) :
  Js.allChars Subsets.isDigitOrMinus s1 = true → Js.allChars Subsets.isDigitOrMinus s2 = true →
  s1 +:+ ".css" = s2 +:+ ".css" → s1 = s2.
Proof.
  revert s2. induction s1 as [|c s1 IH]; intros [|c2 s2] H1 H2 Heq; try done.
  - rewrite append_cons in Heq. injection Heq as <- _. vm_compute in H2. discriminate H2.
  - rewrite append_cons in Heq. injection Heq as -> _. vm_compute in H1. discriminate H1.
  - rewrite !append_cons in Heq. injection Heq as -> Heq.
    simpl in H1, H2. apply andb_true_iff in H1 as [_ H1], H2 as [_ H2].
    f_equal. by apply IH.
Qed.

Lemma css_name_not_italic (s1 s2 : string) :
  Js.allChars Subsets.isDigitOrMinus s1 = true → Js.allChars Subsets.isDigitOrMinus s2 = true →
  s1 +:+ "-italic.css" ≠ s2 +:+ ".css".
Proof.
  revert s2. induction s1 as [|c s1 IH]; intros s2 H1 H2 Heq.
  - destruct s2 as [|c2 [|c3 s3]]; try done.
    rewrite !append_cons in Heq. injection Heq as <- <- _. vm_compute in H2. discriminate H2.
  - destruct s2 as [|c2 s2].
    + rewrite append_cons in Heq. injection Heq as -> _. vm_compute in H1. discriminate H1.
    + rewrite !append_cons in Heq. injection Heq as -> Heq.
      simpl in H1, H2. apply andb_true_iff in H1 as [_ H1], H2 as [_ H2].
      by apply (IH s2).
Qed.

Lemma css_name_not_index (s suffix : string) :
  Js.allChars Subsets.isDigitOrMinus s = true →
  suffix = ".css" ∨ suffix = "-italic.css" →
  s +:+ suffix ≠ "index.css".
Proof.
  intros Hs Hsuffix Heq. destruct s as [|c s].
  - by destruct Hsuffix as [-> | ->].
  - rewrite append_cons in Heq. injection Heq as -> _. vm_compute in Hs. discriminate Hs.
Qed.

End ShowFacts.

(** ** The default style sheet *)
Section DefaultSheetFacts.

Import Processor.

Lemma closerTo400_step (seen : list Z) (closest current : Z) :
  isDefaultWeight seen closest →
  isDefaultWeight (seen ++ [current]) (closerTo400 closest current).
Proof.
  intros [Hin Hbest]. unfold closerTo400.
  destruct (Z.ltb_spec (Z.abs (current - 400)) (Z.abs (closest - 400)));
    [|destruct (Z.eqb_spec (Z.abs (current - 400)) (Z.abs (closest - 400)));
      [destruct (Z.ltb_spec closest current)|]];
    simpl; (split; [rewrite elem_of_app, list_elem_of_singleton; auto|]);
    intros w [Hw| ->%list_elem_of_singleton]%elem_of_app;
    try (destruct (Hbest w Hw)); lia.
Qed.

Lemma closerTo400_fold (rest seen : list Z) (closest : Z) :
  isDefaultWeight seen closest →
  isDefaultWeight (seen ++ rest) (fold_left closerTo400 rest closest).
Proof.
  revert seen closest. induction rest as [|w rest IH]; intros seen closest Hbest.
  - by rewrite app_nil_r.
  - simpl. rewrite cons_middle, app_assoc. by apply IH, closerTo400_step.
Qed.

(** [reduce] without an initial value finds the default weight. *)
Lemma defaultWeight_spec (first : Z) (rest : list Z) :
  isDefaultWeight (first :: rest) (fold_left closerTo400 rest first).
Proof.
  apply (closerTo400_fold rest [first]). split; [apply list_elem_of_here|].
  intros w ->%list_elem_of_singleton. lia.
Qed.

(** The style sheets of a static build, one for each requested weight and
    style with a non-empty CSS text. *)
Lemma elem_of_staticSheets family allVariants subsets weights styles
    (asset : OutputAsset) :
  asset ∈ staticSheets family allVariants subsets weights styles ↔
  ∃ weight style,
    weight ∈ weights ∧ style ∈ styles ∧
    Css.generateStaticCSS family weight style allVariants subsets ≠ "" ∧
    asset = {| assetFilename := sheetName weight style;
               assetContent :=
                 encode (Css.generateStaticCSS family weight style allVariants subsets) |}.
Proof.
  unfold staticSheets. rewrite elem_of_flat_map. split.
  - intros (weight & Hweight & Hasset).
    apply elem_of_flat_map in Hasset as (style & Hstyle & Hasset).
    exists weight, style.
    destruct (Css.generateStaticCSS family weight style allVariants subsets);
      [by apply elem_of_nil in Hasset|].
    apply list_elem_of_singleton in Hasset. done.
  - intros (weight & style & Hweight & Hstyle & Hcss & ->).
    exists weight. split; [done|]. apply elem_of_flat_map.
    exists style. split; [done|].
    destruct (Css.generateStaticCSS family weight style allVariants subsets);
      [done|]. apply list_elem_of_here.
Qed.

(** Only the sheet of the normal style of a weight has the name
    [<weight>.css]. *)
Lemma sheetName_default (weight : Z) (style : FontStyle) (defaultWeight : Z) :
  sheetName weight style = Js.showZ defaultWeight +:+ ".css" ↔
  weight = defaultWeight ∧ style = "normal".
Proof.
  unfold sheetName. destruct (String.eqb_spec style "normal") as [->|Hstyle].
  - split.
    + intros Heq. split; [|done].
      by apply showZ_inj, css_name_inj; auto using showZ_chars.
    + by intros [-> _].
  - split; [|by intros [_ ?]].
    intros Heq. by apply css_name_not_italic in Heq; auto using showZ_chars.
Qed.

Lemma sheetName_not_index (weight : Z) (style : FontStyle) :
  sheetName weight style ≠ "index.css".
Proof.
  unfold sheetName. destruct (String.eqb style "normal");
    apply css_name_not_index; auto using showZ_chars.
Qed.

End DefaultSheetFacts.

(** The claim C6 as it is written fails on a static build of the weight
    400 in the style italic only: it produces the per-weight sheet
    [400-italic.css] and no [index.css]. *)
Lemma index_css_counterexample :
  ∃ package log,
    Processor.buildFont Sample.loadItalic Sample.subsetOk Sample.compressOk
      (λ jobs, jobs) [] Sample.italicConfig = inr (package, log) ∧
    map assetFilename (css package) = ["400-italic.css"] ∧
    ∀ asset, asset ∈ css package → assetFilename asset ≠ "index.css".
Proof.
  eexists _, _. split; [vm_compute; reflexivity|]. split; [reflexivity|].
  intros asset ->%list_elem_of_singleton. discriminate.
Qed.

(** C6, amended.  In a static build with at least one weight to process,
    let the default weight be the weight closest to 400 among the weights
    to process, ties broken toward the heavier weight.  When the style
    [normal] is processed and the style sheet of the default weight in the
    style [normal] is not empty, that sheet [<weight>.css] is among the
    per-weight sheets, and [index.css] is emitted behind them with the
    same bytes; otherwise no [index.css] is emitted.  No per-weight sheet
    is named [index.css]. *)
Theorem index_css_default (ctx : Processor.ProcessingContext)
    (base : BaseFontConfig) (weights : option (list Z))
    (styles : option (list FontStyle)) (allVariants : list ProcessedVariant)
    (weightsToProcess : list Z) (stylesToProcess : list FontStyle) :
  Processor.config ctx = StaticFontBuildConfig base weights styles →
  weightsToProcess ≠ [] →
  ∃ defaultWeight,
    Processor.isDefaultWeight weightsToProcess defaultWeight ∧
    let sheets :=
      Processor.staticSheets (Config.family base) allVariants
        (Processor.subsetsOf ctx) weightsToProcess stylesToProcess in
    let defaultCss :=
      Css.generateStaticCSS (Config.family base) defaultWeight "normal"
        allVariants (Processor.subsetsOf ctx) in
    let cssAssets :=
      Processor.generateAllCssAssets ctx allVariants weightsToProcess
        stylesToProcess in
    (∀ asset, asset ∈ sheets → assetFilename asset ≠ "index.css") ∧
    if decide ("normal" ∈ stylesToProcess ∧ defaultCss ≠ "") then
      {| assetFilename := Js.showZ defaultWeight +:+ ".css";
         assetContent := Processor.encode defaultCss |} ∈ sheets ∧
      cssAssets =
        sheets ++ [{| assetFilename := "index.css";
                      assetContent := Processor.encode defaultCss |}]
    else cssAssets = sheets.
Proof.
  intros Hconfig Hweights.
  destruct weightsToProcess as [|first rest]; [done|].
  exists (fold_left Processor.closerTo400 rest first).
  split; [apply defaultWeight_spec|].
  set (defaultWeight := fold_left Processor.closerTo400 rest first).
  intros sheets defaultCss cssAssets.
  split.
  { intros asset (w & s & _ & _ & _ & ->)%elem_of_staticSheets.
    apply sheetName_not_index. }
  assert (Hassets : cssAssets =
            match List.find (λ asset, String.eqb (assetFilename asset)
                                        (Js.showZ defaultWeight +:+ ".css"))
                    sheets with
            | Some asset =>
                sheets ++ [{| assetFilename := "index.css";
                              assetContent := assetContent asset |}]
            | None => sheets
            end).
  { unfold cssAssets, Processor.generateAllCssAssets. by rewrite Hconfig. }
  assert (Hfound : ∀ asset,
            asset ∈ sheets →
            String.eqb (assetFilename asset) (Js.showZ defaultWeight +:+ ".css") = true →
            "normal" ∈ stylesToProcess ∧ defaultCss ≠ "" ∧
            asset = {| assetFilename := Js.showZ defaultWeight +:+ ".css";
                       assetContent := Processor.encode defaultCss |}).
  { intros asset (w & s & _ & Hs & Hcss & ->)%elem_of_staticSheets Hname.
    apply String.eqb_eq in Hname. simpl in Hname.
    apply sheetName_default in Hname as [-> ->].
    by repeat split. }
  rewrite Hassets.
  destruct (List.find _ sheets) as [asset|] eqn:Hfind.
  - apply find_some in Hfind as [Hin Hname]. apply list_elem_of_In in Hin.
    destruct (Hfound asset Hin Hname) as (Hnormal & Hcss & ->).
    rewrite decide_True by done. done.
  - rewrite decide_False; [done|]. intros [Hnormal Hcss].
    pose proof (find_none _ _ Hfind
                  {| assetFilename := Js.showZ defaultWeight +:+ ".css";
                     assetContent := Processor.encode defaultCss |}) as Hnone.
    simpl in Hnone. rewrite String.eqb_refl in Hnone.
    assert (Hin : {| assetFilename := Js.showZ defaultWeight +:+ ".css";
                     assetContent := Processor.encode defaultCss |} ∈ sheets).
    { apply elem_of_staticSheets. exists defaultWeight, "normal".
      repeat split; try done.
      apply (defaultWeight_spec first rest). }
    apply list_elem_of_In in Hin. by specialize (Hnone Hin).
Qed.

Lemma index_css_default_witness :
  ∃ defaultWeight,
    Processor.isDefaultWeight [300; 500]%Z defaultWeight ∧
    let sheets :=
      Processor.staticSheets "Inter" [Sample.staticLatin500]
        Sample.latinSubsets [300; 500]%Z ["normal"] in
    let defaultCss :=
      Css.generateStaticCSS "Inter" defaultWeight "normal"
        [Sample.staticLatin500] Sample.latinSubsets in
    let cssAssets :=
      Processor.generateAllCssAssets Sample.staticCtx [Sample.staticLatin500]
        [300; 500]%Z ["normal"] in
    (∀ asset, asset ∈ sheets → assetFilename asset ≠ "index.css") ∧
    if decide ("normal" ∈ ["normal"] ∧ defaultCss ≠ "") then
      {| assetFilename := Js.showZ defaultWeight +:+ ".css";
         assetContent := Processor.encode defaultCss |} ∈ sheets ∧
      cssAssets =
        sheets ++ [{| assetFilename := "index.css";
                      assetContent := Processor.encode defaultCss |}]
    else cssAssets = sheets.
Proof.
  apply (index_css_default Sample.staticCtx Sample.latinBase
           (Some [300; 500]%Z) (Some ["normal"]) [Sample.staticLatin500]
           [300; 500]%Z ["normal"]).
  - reflexivity.
  - discriminate.
Defined.

(** ** Unicode ranges *)
Section RangeFacts.

Import Utils.

Lemma setOf_spec `{EqDecision A} (arr acc : list A) (x : A) :
  x ∈ fold_left Js.setAdd arr acc ↔ x ∈ acc ∨ x ∈ arr.
Proof.
  revert acc. induction arr as [|y arr IH]; intros acc; simpl.
  - rewrite elem_of_nil. tauto.
  - rewrite IH, elem_of_setAdd, elem_of_cons. tauto.
Qed.

Lemma setOf_NoDup `{EqDecision A} (arr acc : list A) :
  NoDup acc → NoDup (fold_left Js.setAdd arr acc).
Proof.
  revert acc. induction arr as [|y arr IH]; intros acc Hacc; [done|].
  simpl. by apply IH, NoDup_setAdd.
Qed.

(** The sorted list of the loop: strictly ascending, with the elements of
    the input. *)
Lemma sorted_spec (codepoints : list N) :
  StronglySorted N.lt (Js.sortAscending (Js.setOf codepoints)) ∧
  ∀ x, x ∈ Js.sortAscending (Js.setOf codepoints) ↔ x ∈ codepoints.
Proof.
  unfold Js.sortAscending, Js.setOf. split.
  - assert (Hsorted : StronglySorted N.le
              (merge_sort N.le (fold_left Js.setAdd codepoints []))).
    { apply StronglySorted_merge_sort; [apply _|]. intros x y. lia. }
    assert (Hnodup : NoDup (merge_sort N.le (fold_left Js.setAdd codepoints []))).
    { rewrite merge_sort_Permutation. apply setOf_NoDup, NoDup_nil_2. }
    induction Hsorted as [|x xs Hxs IH Hall]; [constructor|].
    apply NoDup_cons in Hnodup as [Hx Hnodup].
    constructor; [by apply IH|].
    rewrite Forall_forall in *. intros y Hy.
    specialize (Hall y Hy). assert (x ≠ y) by (intros ->; done). lia.
  - intros x. rewrite merge_sort_Permutation, setOf_spec, elem_of_nil. tauto.
Qed.

(** Two strictly ascending lists with the same elements are equal. *)
Lemma ascending_unique (l1 l2 : list N) :
  StronglySorted N.lt l1 → StronglySorted N.lt l2 →
  (∀ x, x ∈ l1 ↔ x ∈ l2) → l1 = l2.
Proof.
  intros H1 H2 Hsame.
  apply (StronglySorted_unique_strong N.lt); try done.
  - intros x1 x2 _ _ ? ?. lia.
  - apply NoDup_Permutation; try done.
    + clear -H1. induction H1 as [|x l Hl IH Hall]; constructor; [|done].
      rewrite Forall_forall in Hall. intros Hx%Hall. lia.
    + clear -H2. induction H2 as [|x l Hl IH Hall]; constructor; [|done].
      rewrite Forall_forall in Hall. intros Hx%Hall. lia.
Qed.

Lemma last_cons {A} (l : list A) (x d : A) :
  List.last (x :: l) d = List.last l x.
Proof.
  revert x d. induction l as [|y l IH]; intros x d; [done|].
  change (List.last (y :: l) d = List.last (y :: l) x). by rewrite !IH.
Qed.

(** The strings of the loop are the entries of the runs. *)
Lemma rangeLoop_runs (rest : list N) (rangeStart prev : N) (ranges : list string) :
  (rangeLoop rangeStart prev rest ranges).1 ++
    [rangeEntry (rangeLoop rangeStart prev rest ranges).2 (List.last rest prev)]
  = ranges ++ map (λ run, rangeEntry run.1 run.2) (runsLoop rangeStart prev rest).
Proof.
  revert rangeStart prev ranges.
  induction rest as [|x rest IH]; intros rangeStart prev ranges; [done|].
  rewrite last_cons. simpl rangeLoop. simpl runsLoop.
  destruct (negb (x =? prev + 1)).
  - rewrite IH. simpl. by rewrite <- app_assoc.
  - by rewrite IH.
Qed.

Lemma runsLoop_head (rest : list N) (rangeStart prev : N) :
  ∃ hi runs, runsLoop rangeStart prev rest = (rangeStart, hi) :: runs.
Proof.
  revert rangeStart prev. induction rest as [|x rest IH]; intros rangeStart prev.
  - by eexists _, _.
  - simpl. destruct (negb (x =? prev + 1)); [by eexists _, _|apply IH].
Qed.

(** The runs of a strictly ascending list are maximal and cover it. *)
Lemma runsLoop_maximal (rest : list N) (rangeStart prev : N) :
  StronglySorted N.lt (prev :: rest) → rangeStart ≤ prev →
  maximalRuns (runsLoop rangeStart prev rest) ∧
  ∀ x, (∃ lo hi, (lo, hi) ∈ runsLoop rangeStart prev rest ∧ lo ≤ x ≤ hi)
       ↔ rangeStart ≤ x ≤ prev ∨ x ∈ rest.
Proof.
  revert rangeStart prev.
  induction rest as [|y rest IH]; intros rangeStart prev Hsorted Hstart.
  - simpl. split; [done|]. intros x. rewrite elem_of_nil. split.
    + intros (lo & hi & [= -> ->]%list_elem_of_singleton & ?). by left.
    + intros [?|[]]. exists rangeStart, prev. by rewrite list_elem_of_singleton.
  - apply StronglySorted_inv in Hsorted as [Hrest Hprev].
    pose proof (Forall_inv Hprev) as Hlt. simpl in Hlt.
    simpl. destruct (N.eqb_spec y (prev + 1)) as [->|Hne]; simpl.
    + destruct (IH rangeStart (prev + 1) Hrest) as [Hmax Hcover]; [lia|].
      split; [done|]. intros x. rewrite Hcover, elem_of_cons.
      destruct (decide (x = prev + 1)); intuition lia.
    + destruct (IH y y Hrest) as [Hmax Hcover]; [lia|].
      destruct (runsLoop_head rest y y) as (hi & runs & Hhead).
      split.
      * rewrite Hhead in Hmax |- *. simpl. split; [lia|]. split; [lia|exact Hmax].
      * intros x. rewrite elem_of_cons. split.
        -- intros (lo & hi' & [[= -> ->]|Hin]%elem_of_cons & Hx); [by left|].
           right. destruct (proj1 (Hcover x)) as [?|?]; eauto. left. lia.
        -- intros [?|[->|Hin]].
           ++ exists rangeStart, prev. split; [apply list_elem_of_here|done].
           ++ destruct (proj2 (Hcover y)) as (lo & hi' & ? & ?); [left; lia|].
              exists lo, hi'. split; [by apply list_elem_of_further|done].
           ++ destruct (proj2 (Hcover x)) as (lo & hi' & ? & ?); [by right|].
              exists lo, hi'. split; [by apply list_elem_of_further|done].
Qed.

End RangeFacts.

(** ** Hexadecimal *)
Section HexFacts.

Lemma hex_string_chars (d : Hexadecimal.uint) :
  Js.allChars Utils.isUpperHexDigit
    (Js.toUpperCase (HexadecimalString.NilEmpty.string_of_uint d)) = true.
Proof. induction d; simpl; auto. Qed.

(** The rendered codepoint consists of upper-case hexadecimal digits. *)
Lemma hexUpper_chars (n : N) :
  Js.allChars Utils.isUpperHexDigit (Utils.hexUpper n) = true.
Proof.
  unfold Utils.hexUpper, Js.toString16, HexadecimalString.NilZero.string_of_uint.
  destruct (N.to_hex_uint n); try done; apply hex_string_chars.
Qed.

Lemma parse_hex_acc (d : Hexadecimal.uint) (acc : positive) :
  Subsets.parseDigits 16 (Some (Npos acc))
    (Js.toUpperCase (HexadecimalString.NilEmpty.string_of_uint d))
  = Some (Npos (Pos.of_hex_uint_acc d acc)).
Proof.
  revert acc. induction d; intros acc; [done|..];
    cbn -[N.mul N.add Pos.mul Pos.add]; rewrite <- IHd; do 2 f_equal;
    match goal with
    | |- context [N_of_ascii ?c - ?k] =>
        let v := eval vm_compute in (N_of_ascii c - k) in
        change (N_of_ascii c - k) with v
    end; lia.
Qed.

Lemma parse_hex (d : Hexadecimal.uint) :
  Subsets.parseDigits 16 (Some 0)
    (Js.toUpperCase (HexadecimalString.NilEmpty.string_of_uint d))
  = Some (Pos.of_hex_uint d).
Proof.
  induction d; [done|exact IHd|..];
    cbn -[N.mul N.add Pos.mul Pos.add Pos.of_hex_uint_acc];
    apply (parse_hex_acc d).
Qed.

(** Reading the rendered codepoint in base 16 gives the codepoint back. *)
Lemma hexUpper_value (n : N) :
  Subsets.parseDigits 16 None (Utils.hexUpper n) = Some n.
Proof.
  rewrite <- (HexadecimalN.Unsigned.of_to n) at 2.
  unfold Utils.hexUpper, Js.toString16, HexadecimalString.NilZero.string_of_uint.
  unfold N.of_hex_uint.
  destruct (N.to_hex_uint n) as [|d|d|d|d|d|d|d|d|d|d|d|d|d|d|d|d]; [done|..];
    try (apply (parse_hex_acc d)).
  apply (parse_hex d).
Qed.

End HexFacts.

(** C7.  For two codepoint lists that are equal as sets (any order, any
    duplication), [codepointsToRangeString] returns the same string; that
    string is the list, joined by a comma and a space, of the maximal
    contiguous runs of the set in ascending order, each written [U+<HEX>]
    for a single codepoint and [U+<HEX>-<HEX>] for a run from its first
    to its last codepoint; [<HEX>] consists of upper-case hexadecimal
    digits and reads as the codepoint in base 16. *)
Theorem range_string_canonical (codepoints other : list N) :
  (∀ x, x ∈ codepoints ↔ x ∈ other) →
  Utils.codepointsToRangeString codepoints = Utils.codepointsToRangeString other ∧
  (∃ runs,
     Utils.maximalRuns runs ∧
     (∀ x, x ∈ codepoints ↔ ∃ lo hi, (lo, hi) ∈ runs ∧ lo ≤ x ≤ hi) ∧
     Utils.codepointsToRangeString codepoints =
       Js.join ", "
         (map (λ '(lo, hi),
                 if lo =? hi then "U+" +:+ Utils.hexUpper lo
                 else "U+" +:+ Utils.hexUpper lo +:+ "-" +:+ Utils.hexUpper hi)
            runs)) ∧
  ∀ n, Js.allChars Utils.isUpperHexDigit (Utils.hexUpper n) = true ∧
       Subsets.parseDigits 16 None (Utils.hexUpper n) = Some n.
Proof.
  intros Hsame.
  destruct (sorted_spec codepoints) as [Hsorted Hmem].
  destruct (sorted_spec other) as [Hsorted' Hmem'].
  assert (Heq : Js.sortAscending (Js.setOf codepoints)
                = Js.sortAscending (Js.setOf other)).
  { apply ascending_unique; try done. intros x. by rewrite Hmem, Hmem', Hsame. }
  split; [|split; [|auto using hexUpper_chars, hexUpper_value]].
  - unfold Utils.codepointsToRangeString. rewrite <- Heq.
    destruct codepoints as [|c cs], other as [|o os]; try done.
    pose proof (proj1 (Hsame c) (list_elem_of_here _ _)) as Hc.
    by apply elem_of_nil in Hc.
  - unfold Utils.codepointsToRangeString.
    destruct codepoints as [|c cs].
    { exists []. repeat split; try done.
      - by intros ?%elem_of_nil.
      - by intros (lo & hi & ?%elem_of_nil & _). }
    destruct (Js.sortAscending (Js.setOf (c :: cs))) as [|first rest] eqn:Hlist.
    { pose proof (proj2 (Hmem c) (list_elem_of_here _ _)) as Hc.
      by apply elem_of_nil in Hc. }
    exists (Utils.runsLoop first first rest).
    destruct (runsLoop_maximal rest first first Hsorted) as [Hmax Hcover]; [lia|].
    split; [done|]. split.
    + intros x. rewrite Hcover, <- Hmem, elem_of_cons.
      destruct (decide (x = first)); intuition lia.
    + pose proof (rangeLoop_runs rest first first []) as Hruns.
      destruct (Utils.rangeLoop first first rest []) as [ranges rangeStart].
      rewrite last_cons. simpl in Hruns. rewrite Hruns. f_equal.
      apply map_ext. by intros [lo hi].
Qed.

Lemma range_string_canonical_witness :
  Utils.codepointsToRangeString [33; 32; 65; 33; 255; 256; 257]
  = Utils.codepointsToRangeString [32; 33; 65; 255; 256; 257] ∧
  Utils.codepointsToRangeString [33; 32; 65; 33; 255; 256; 257]
  = "U+20-21, U+41, U+FF-101".
Proof.
  split; [|reflexivity].
  apply (range_string_canonical [33; 32; 65; 33; 255; 256; 257]
           [32; 33; 65; 255; 256; 257]).
  intros x. rewrite !elem_of_cons, !elem_of_nil. tauto.
Defined.

(** ** The build *)
Section BuildFacts.

Context {Error : Type} `{!RuntimeErrors Error}.
Variable loadFonts : list bytes → Error + list FontRef.t.
Variable subsetFont : FontRef.t → SubsetSettings → Error + bytes.
Variable compressFromTTF : bytes → Format → Z → Error + bytes.
Variable completionOrder :
  list Processor.ProcessingJob → list Processor.ProcessingJob.
Hypothesis completionOrder_perm : ∀ jobs, completionOrder jobs ≡ₚ jobs.

Import Processor.

Abbreviation processSliceOf := (processSliceOf subsetFont compressFromTTF).
Abbreviation processJob := (processJob subsetFont compressFromTTF).
Abbreviation variantsOf := (variantsOf subsetFont compressFromTTF).
Abbreviation runJobs := (runJobs subsetFont compressFromTTF completionOrder).

(** The call of [generateSubsetData] throws exactly when the read of a
    requested name finds an inherited member. *)
Lemma callGenerateSubsetData_throws (config : FontBuildConfig) (error : Error) :
  Subsets.callGenerateSubsetData config = inl error ↔
  error = typeError ∧
  ∃ name, name ∈ Config.subsets (baseOf config) ∧
          Config.subsetSources (baseOf config) !! name = None ∧
          name ∈ Js.objectPrototypeMembers.
Proof.
  unfold Subsets.callGenerateSubsetData.
  destruct (existsb _ _) eqn:Hreads.
  - apply existsb_exists in Hreads as (name & Hin & Hname).
    unfold Subsets.readsInherited in Hname.
    destruct (Config.subsetSources (baseOf config) !! name) eqn:Hsource;
      [done|]. apply bool_decide_eq_true in Hname.
    split; [|by intros [-> _]]. intros [= <-]. split; [done|].
    exists name. by rewrite <- list_elem_of_In in Hin.
  - split; [done|]. intros [_ (name & Hin & Hsource & Hmember)].
    assert (Hexists : existsb
              (Subsets.readsInherited (Config.subsetSources (baseOf config)))
              (Config.subsets (baseOf config)) = true).
    { apply existsb_exists. exists name. split; [by apply list_elem_of_In|].
      unfold Subsets.readsInherited. rewrite Hsource.
      by apply bool_decide_eq_true. }
    congruence.
Qed.

(** The call returns for a configuration whose subsets are in scope. *)
Lemma callGenerateSubsetData_returns (config : FontBuildConfig) :
  Subsets.sourcesInScope config = true →
  Subsets.callGenerateSubsetData config
  = inr (Subsets.generateSubsetData config).
Proof.
  intros Hscope.
  destruct (Subsets.callGenerateSubsetData config) as [error|result]
    eqn:Hcall.
  - apply callGenerateSubsetData_throws in Hcall
      as (_ & name & Hin & Hsource & Hmember).
    unfold Subsets.sourcesInScope in Hscope.
    rewrite forallb_forall in Hscope.
    specialize (Hscope name (proj1 (list_elem_of_In _ _) Hin)).
    unfold Subsets.sourceInScope, Subsets.readsInherited in Hscope.
    rewrite Hsource in Hscope. apply negb_true_iff in Hscope.
    by apply bool_decide_eq_false in Hscope.
  - unfold Subsets.callGenerateSubsetData in Hcall.
    destruct (existsb _ _); [done|]. by injection Hcall as <-.
Qed.

(** A job that throws yields [null] and one warning; any other job yields
    its variant and no warning. *)
Lemma processJob_outcome (ctx : ProcessingContext) (job : ProcessingJob) :
  match processSliceOf ctx job with
  | inl error => processJob ctx job = (None, [(failureMessage job, Some error)])
  | inr variant => processJob ctx job = (Some variant, [])
  end.
Proof. unfold Processor.processJob. by destruct (processSliceOf ctx job). Qed.





End BuildFacts.


(** * Further properties of the sources *)

(** ** utils.ts: identifiers *)
Section KebabFacts.

Lemma lowerChar_idempotent (c : ascii) :
  Js.lowerChar (Js.lowerChar c) = Js.lowerChar c.
Proof. by destruct c as [[] [] [] [] [] [] [] []]. Qed.

Lemma lowerChar_space (c : ascii) :
  Js.isWhiteSpace (Js.lowerChar c) = Js.isWhiteSpace c.
Proof. by destruct c as [[] [] [] [] [] [] [] []]. Qed.

Lemma toLowerCase_idempotent (s : string) :
  Js.toLowerCase (Js.toLowerCase s) = Js.toLowerCase s.
Proof.
  induction s as [|c s IH]; [done|]. simpl. by rewrite lowerChar_idempotent, IH.
Qed.

Lemma replaceSpaceRuns_no_space (inRun : bool) (s : string) :
  Js.allChars (λ c, negb (Js.isWhiteSpace c)) (Js.replaceSpaceRuns inRun s) = true.
Proof.
  revert inRun. induction s as [|c s IH]; intros inRun; [done|]. simpl.
  destruct (Js.isWhiteSpace c) eqn:Hc.
  - destruct inRun; [apply IH|]. simpl. apply IH.
  - simpl. by rewrite Hc, IH.
Qed.

Lemma replaceSpaceRuns_fixed (inRun : bool) (s : string) :
  Js.allChars (λ c, negb (Js.isWhiteSpace c)) s = true →
  Js.replaceSpaceRuns inRun s = s.
Proof.
  revert inRun. induction s as [|c s IH]; intros inRun; [done|]. simpl.
  intros [Hc Hs]%andb_true_iff. apply negb_true_iff in Hc. rewrite Hc.
  by rewrite IH.
Qed.

Lemma toLowerCase_replaceSpaceRuns (inRun : bool) (s : string) :
  Js.toLowerCase (Js.replaceSpaceRuns inRun s)
  = Js.replaceSpaceRuns inRun (Js.toLowerCase s).
Proof.
  revert inRun. induction s as [|c s IH]; intros inRun; [done|]. simpl.
  rewrite lowerChar_space. destruct (Js.isWhiteSpace c).
  - destruct inRun; [apply IH|]. simpl. by rewrite IH.
  - simpl. by rewrite IH.
Qed.

End KebabFacts.

(** X1.  [normalizeKebabCase] returns an identifier without white space
    and in lower case, and normalizing an identifier again leaves it as it
    is. *)
Theorem normalizeKebabCase_canonical (text : string) :
  Js.allChars (λ c, negb (Js.isWhiteSpace c)) (Utils.normalizeKebabCase text) = true ∧
  Js.toLowerCase (Utils.normalizeKebabCase text) = Utils.normalizeKebabCase text ∧
  Utils.normalizeKebabCase (Utils.normalizeKebabCase text)
  = Utils.normalizeKebabCase text.
Proof.
  unfold Utils.normalizeKebabCase.
  assert (Hlower : Js.toLowerCase (Js.replaceSpaceRuns false (Js.toLowerCase text))
                   = Js.replaceSpaceRuns false (Js.toLowerCase text)).
  { by rewrite toLowerCase_replaceSpaceRuns, toLowerCase_idempotent. }
  split; [apply replaceSpaceRuns_no_space|]. split; [done|].
  rewrite Hlower. apply replaceSpaceRuns_fixed, replaceSpaceRuns_no_space.
Qed.

(** ** utils.ts and css.ts: empty ranges *)
Section EmptyRangeFacts.

Lemma append_empty (a b : string) : a +:+ b = "" → a = "" ∧ b = "".
Proof. by destruct a. Qed.

Lemma join_empty (sep : string) (l : list string) :
  Js.join sep l = "" → Forall (λ x, x = "") l.
Proof.
  induction l as [|x l IH]; [done|]. destruct l as [|y l].
  - simpl. intros ->. by constructor.
  - change (Js.join sep (x :: y :: l)) with (x +:+ sep +:+ Js.join sep (y :: l)).
    intros [-> [_ Hrest]%append_empty]%append_empty. constructor; auto.
Qed.

Lemma rangeEntry_not_empty (rangeStart rangeEnd : N) :
  Utils.rangeEntry rangeStart rangeEnd ≠ "".
Proof. unfold Utils.rangeEntry. by destruct (rangeStart =? rangeEnd). Qed.

(** The range string is empty only for no codepoints. *)
Lemma codepointsToRangeString_empty (codepoints : list N) :
  Utils.codepointsToRangeString codepoints = "" ↔ codepoints = [].
Proof.
  split; [|by intros ->].
  destruct codepoints as [|c cs]; [done|]. intros Hempty. exfalso.
  unfold Utils.codepointsToRangeString in Hempty.
  destruct (sorted_spec (c :: cs)) as [_ Hmem].
  destruct (Js.sortAscending (Js.setOf (c :: cs))) as [|first rest].
  { pose proof (proj2 (Hmem c) (list_elem_of_here _ _)) as Hc.
    by apply elem_of_nil in Hc. }
  destruct (Utils.rangeLoop first first rest []) as [ranges rangeStart].
  apply join_empty, Forall_app in Hempty as [_ Hlast].
  apply Forall_inv in Hlast. by apply rangeEntry_not_empty in Hlast.
Qed.

Lemma fontFaceBlock_not_empty
    (comment fontFamily style weight stretch src unicodeRange : string) :
  Css.fontFaceBlock comment fontFamily style weight stretch src unicodeRange ≠ "".
Proof. done. Qed.

End EmptyRangeFacts.

(** X2.  [codepointsToRangeString] returns the empty string exactly for
    an empty list of codepoints; every other result starts with [U+]. *)
Theorem range_string_empty_iff (codepoints : list N) :
  (Utils.codepointsToRangeString codepoints = "" ↔ codepoints = []) ∧
  (codepoints ≠ [] →
   Js.startsWith (Utils.codepointsToRangeString codepoints) "U+" = true).
Proof.
  split; [apply codepointsToRangeString_empty|].
  intros Hne. destruct codepoints as [|c cs]; [done|].
  unfold Utils.codepointsToRangeString.
  destruct (sorted_spec (c :: cs)) as [_ Hmem].
  destruct (Js.sortAscending (Js.setOf (c :: cs))) as [|first rest] eqn:Hsorted.
  { pose proof (proj2 (Hmem c) (list_elem_of_here _ _)) as Hc.
    by apply elem_of_nil in Hc. }
  pose proof (rangeLoop_runs rest first first []) as Hruns.
  destruct (Utils.rangeLoop first first rest []) as [ranges rangeStart].
  rewrite last_cons. simpl in Hruns. rewrite Hruns.
  destruct (runsLoop_head rest first first) as (hi & runs & ->).
  assert (Hentry : ∀ a b r,
            Js.startsWith (Utils.rangeEntry a b +:+ r) "U+" = true).
  { intros a b r. unfold Utils.rangeEntry.
    destruct (a =? b); rewrite append_assoc; apply startsWith_append. }
  simpl map. destruct (map _ runs) as [|entry entries].
  - simpl. rewrite <- (append_nil_r (Utils.rangeEntry first hi)). apply Hentry.
  - apply Hentry.
Qed.

(** X3.  [generateFontFace] returns a rule exactly when the group has a
    variant and the unicode range is not empty: the stored range string of
    a range subset, or, for a sliced subset, the range of the first slice
    that has the slice index of the first variant, which must exist and
    hold a codepoint.  In every other case it returns the empty string. *)
Theorem generateFontFace_emits (family : string)
    (variants : list ProcessedVariant) (subset : SubsetDefinition) :
  Css.generateFontFace family variants subset ≠ "" ↔
  ∃ firstVariant rest,
    variants = firstVariant :: rest ∧
    match subset with
    | range _ unicodeRange _ => unicodeRange ≠ ""
    | sliced _ slices =>
        ∃ slice,
          List.find (λ s, Slice.index s
                          =? Variant.sliceIndex (baseVariant firstVariant)) slices
          = Some slice ∧
          Slice.codepoints slice ≠ []
    end.
Proof.
  assert (Hrange : ∀ sliceIndex,
            Css.unicodeRangeOf subset sliceIndex ≠ "" ↔
            match subset with
            | range _ unicodeRange _ => unicodeRange ≠ ""
            | sliced _ slices =>
                ∃ slice,
                  List.find (λ s, Slice.index s =? sliceIndex) slices = Some slice ∧
                  Slice.codepoints slice ≠ []
            end).
  { intros sliceIndex. destruct subset as [name unicodeRange cps|name slices]; [done|].
    simpl. destruct (List.find _ slices) as [slice|].
    - rewrite codepointsToRangeString_empty. split; [by exists slice|].
      by intros (s & [= <-] & ?).
    - split; [done|]. by intros (s & ? & _). }
  split.
  - intros (firstVariant & rest & c & s & w & st & -> & Hne & _)%generateFontFace_block.
    exists firstVariant, rest. split; [done|]. by apply Hrange.
  - intros (firstVariant & rest & -> & Hsubset). apply Hrange in Hsubset.
    unfold Css.generateFontFace.
    destruct (Css.unicodeRangeOf subset _); [done|].
    by destruct firstVariant.
Qed.



(** ** subsets.ts: the .nam format *)
Section NamFacts.

Import Subsets.









End NamFacts.



(** ** subsets.ts: the subset data of a configuration *)
Section SubsetLogFacts.

Context {Error : Type}.

Import Subsets.

(** The log of the loop of [generateSubsetData]: one warning for every
    name without content, behind those written before. *)
Lemma loadSubset_log (sources : gmap string string) (names : list string)
    (acc : gmap string SubsetDefinition * list (Warning Error)) :
  (fold_left (loadSubset sources) names acc).2
  = acc.2 ++
    map (λ name, ("WARN: No subset file content provided for " +:+ name, None))
      (filter (λ name, noContent sources name = true) names).
Proof.
  revert acc. induction names as [|name names IH]; intros [subsetData log].
  - simpl. by rewrite app_nil_r.
  - change (fold_left (loadSubset sources) (name :: names) (subsetData, log))
      with (fold_left (loadSubset sources) names
              (loadSubset sources (subsetData, log) name)).
    rewrite IH. unfold loadSubset, noContent at 2.
    destruct (sources !! name) as [[|c text]|] eqn:Hsource.
    + rewrite filter_cons_True by (unfold noContent; by rewrite Hsource).
      simpl. by rewrite <- app_assoc.
    + rewrite filter_cons_False by (unfold noContent; by rewrite Hsource).
      by destruct (Js.includes _ _).
    + rewrite filter_cons_True by (unfold noContent; by rewrite Hsource).
      simpl. by rewrite <- app_assoc.
Qed.

(** With no block open, a line that does not open one changes nothing. *)
Lemma parseLine_closed (st : ParserState) (line : string) :
  currentSlice st = None → Js.trim line ≠ "subsets {" → parseLine st line = st.
Proof.
  intros Hclosed Hline. unfold parseLine.
  destruct (String.eqb_spec (Js.trim line) "subsets {") as [|_]; [done|].
  rewrite Hclosed.
  destruct (Js.startsWith _ _); [by destruct (matchCodepoints _)|].
  by destruct (String.eqb _ _).
Qed.

Lemma scanFrom_closed (lines : list string) (st : ParserState) :
  currentSlice st = None →
  Forall (λ line, Js.trim line ≠ "subsets {") lines →
  fold_left parseLine lines st = st.
Proof.
  intros Hclosed. induction 1 as [|line lines Hline _ IH]; [done|].
  simpl. by rewrite parseLine_closed.
Qed.

(** [find] on the indexed slices: the slice at position [k - 1]. *)
Lemma find_indexed (blocks : list (list N)) (offset k : nat) :
  List.find (λ s, Slice.index s =? N.of_nat k)
    (imap (λ i codepoints,
             {| Slice.index := N.of_nat (offset + i) + 1;
                Slice.codepoints := codepoints |}) blocks)
  = if decide (offset < k)%nat
    then (λ codepoints,
            {| Slice.index := N.of_nat k; Slice.codepoints := codepoints |})
           <$> blocks !! (k - offset - 1)%nat
    else None.
Proof.
  revert offset. induction blocks as [|block blocks IH]; intros offset.
  - simpl. by destruct (decide _).
  - rewrite imap_cons. cbn [List.find Slice.index].
    rewrite (imap_ext _ (λ i codepoints,
               {| Slice.index := N.of_nat (S offset + i) + 1;
                  Slice.codepoints := codepoints |}))
      by (intros i x _; simpl; do 3 f_equal; lia).
    rewrite IH. rewrite Nat.add_0_r.
    destruct (N.eqb_spec (N.of_nat offset + 1) (N.of_nat k)) as [Hk|Hk].
    + assert (k = S offset) as -> by lia.
      rewrite decide_True by lia.
      replace (S offset - offset - 1)%nat with 0%nat by lia.
      simpl. do 2 f_equal. lia.
    + destruct (decide (offset < k)%nat) as [Hlt|Hge].
      * rewrite decide_True by lia.
        replace (k - offset - 1)%nat with (S (k - S offset - 1)) by lia. done.
      * by rewrite decide_False by lia.
Qed.

End SubsetLogFacts.

(** X6.  The call of [generateSubsetData] throws a [TypeError] exactly
    when the configuration requests a name that [Object.prototype] has
    and the sources do not have themselves: the read finds the inherited
    member, and no warning is written for it.  When the requested subsets
    are read without an exception and without [NaN], the call returns;
    the subset data then has an entry exactly for the requested names
    whose source text is not empty, and the entry is the definition read
    from that text; for every other requested name, once per request and
    in the order of the requests, a warning is written. *)
Theorem generateSubsetData_result {Error : Type} `{!RuntimeErrors Error}
    (config : FontBuildConfig) :
  (∀ error : Error,
     Subsets.callGenerateSubsetData config = inl error ↔
     error = typeError ∧
     ∃ name, name ∈ Config.subsets (baseOf config) ∧
             Config.subsetSources (baseOf config) !! name = None ∧
             name ∈ Js.objectPrototypeMembers) ∧
  (Subsets.sourcesInScope config = true →
   Subsets.callGenerateSubsetData config
   = inr (Subsets.generateSubsetData (Error := Error) config) ∧
   (∀ name,
      (Subsets.generateSubsetData (Error := Error) config).1 !! name
      = if decide (name ∈ Config.subsets (baseOf config)) then
          match Config.subsetSources (baseOf config) !! name with
          | Some ((String _ _) as fileContent) =>
              Some (Subsets.definitionOf name fileContent)
          | _ => None
          end
        else None) ∧
   (Subsets.generateSubsetData (Error := Error) config).2
   = map (λ name, ("WARN: No subset file content provided for " +:+ name, None))
       (filter (λ name,
                  Subsets.noContent (Config.subsetSources (baseOf config)) name
                  = true)
          (Config.subsets (baseOf config)))).
Proof.
  split; [apply callGenerateSubsetData_throws|].
  intros Hscope. split; [by apply callGenerateSubsetData_returns|].
  unfold Subsets.generateSubsetData. split.
  - intros name. rewrite loadSubset_lookup. simpl. rewrite lookup_empty.
    destruct (Config.subsetSources (baseOf config) !! name) as [[|c text]|];
      by destruct (decide _).
  - by rewrite loadSubset_log.
Qed.

Lemma generateSubsetData_result_witness :
  Subsets.callGenerateSubsetData (Error := unit) Sample.constructorConfig
  = inl () ∧
  ∃ subsets,
    Subsets.callGenerateSubsetData (Error := unit) Sample.japaneseConfig
    = inr (subsets, []) ∧
    subsets !! "japanese"
    = Some (Subsets.definitionOf "japanese" Sample.japaneseSource).
Proof.
  destruct (generateSubsetData_result (Error := unit) Sample.constructorConfig)
    as [Hthrows _].
  destruct (generateSubsetData_result (Error := unit) Sample.japaneseConfig)
    as [_ Hreturns].
  destruct (Hreturns eq_refl) as (Hcall & Hlookup & _).
  split.
  - apply Hthrows. split; [reflexivity|]. exists "constructor".
    split; [apply list_elem_of_here|]. split; [reflexivity|].
    apply list_elem_of_here.
  - exists (Subsets.generateSubsetData (Error := unit) Sample.japaneseConfig).1.
    split.
    + rewrite Hcall. reflexivity.
    + rewrite Hlookup. reflexivity.
Defined.

(** X7.  The lines in front of the first opening marker have no effect on
    the slices: a wrapper line, a comment, a codepoint line or a closing
    marker outside every block is skipped. *)
Theorem slicing_preamble_ignored (preamble rest : string) :
  Forall (λ line, Js.trim line ≠ "subsets {") (Js.split Js.nl preamble) →
  Subsets.parseSlicingStrategy (preamble +:+ String Js.nl rest)
  = Subsets.parseSlicingStrategy rest.
Proof.
  intros Hpreamble. unfold Subsets.parseSlicingStrategy, Subsets.scan.
  rewrite scanFrom_append. unfold Subsets.scanFrom at 2.
  by rewrite scanFrom_closed.
Qed.

Lemma slicing_preamble_ignored_witness :
  Subsets.parseSlicingStrategy
    (("codepoints: 7" +:+ String Js.nl "}") +:+
     String Js.nl ("subsets {" +:+ String Js.nl "codepoints: 65" +:+
                   String Js.nl "}"))
  = [[65]].
Proof.
  rewrite (slicing_preamble_ignored ("codepoints: 7" +:+ String Js.nl "}")).
  - reflexivity.
  - repeat constructor; vm_compute; discriminate.
Defined.

(** X8.  The unicode range of slice [k] of a subset that was read from a
    slicing text: the range string of block [k], counted from 1 from the
    end of the text; there is no range for the index 0 or an index above
    the number of blocks. *)
Theorem sliced_unicode_range (name : string) (blocks : list (list N)) (k : nat) :
  blocks ≠ [] → Forall (λ block, block ≠ []) blocks →
  Css.unicodeRangeOf (Subsets.definitionOf name (Subsets.slicingText blocks))
    (N.of_nat k)
  = match k with
    | O => ""
    | S i =>
        match rev blocks !! i with
        | Some block => Utils.codepointsToRangeString block
        | None => ""
        end
    end.
Proof.
  intros Hblocks Hall. rewrite slicingText_definition by done.
  unfold Css.unicodeRangeOf, Subsets.indexSlices.
  rewrite (imap_ext _ (λ i codepoints,
             {| Slice.index := N.of_nat (0 + i) + 1;
                Slice.codepoints := codepoints |})) by done.
  rewrite find_indexed. destruct k as [|i]; [done|].
  rewrite decide_True by lia.
  replace (S i - 0 - 1)%nat with i by lia.
  by destruct (rev blocks !! i).
Qed.

Lemma sliced_unicode_range_witness :
  Css.unicodeRangeOf
    (Subsets.definitionOf "japanese" (Subsets.slicingText [[65; 66]; [12354]]))
    (N.of_nat 1)
  = "U+3042".
Proof.
  rewrite (sliced_unicode_range "japanese" [[65; 66]; [12354]] 1).
  - reflexivity.
  - done.
  - repeat constructor; done.
Defined.

(** ** css.ts: the groups of a style sheet *)
Section GroupFacts.

Import Css.

(** The part of a key behind its last hyphen is the slice index. *)
Lemma key_inj (a b d1 d2 : string) :
  Js.allChars Subsets.isDigit d1 = true → Js.allChars Subsets.isDigit d2 = true →
  a +:+ "-" +:+ d1 = b +:+ "-" +:+ d2 → a = b ∧ d1 = d2.
Proof.
  intros Hd1 Hd2. revert b.
  assert (Hhyphen : ∀ s d d',
            Js.allChars Subsets.isDigit d = true → d ≠ s +:+ "-" +:+ d').
  { intros s d d' Hd ->. rewrite allChars_append in Hd.
    apply andb_true_iff in Hd as [_ Hd]. done. }
  induction a as [|c a IH]; intros [|c' b];
    rewrite ?append_nil_l, ?append_cons, ?append_nil_l.
  - by intros [= ->].
  - intros [= <- Heq]. by apply Hhyphen in Heq.
  - intros [= -> Heq]. symmetry in Heq. by apply Hhyphen in Heq.
  - intros [= -> Heq]. apply IH in Heq as [-> ->]. done.
Qed.

Lemma showN_inj (m n : N) : Js.showN m = Js.showN n → m = n.
Proof.
  intros Heq. pose proof (showN_value m) as Hm. rewrite Heq, showN_value in Hm.
  by injection Hm.
Qed.

(** Two variants have the same key exactly when they have the same subset
    and the same slice index. *)
Lemma groupKey_inj (v1 v2 : ProcessedVariant) :
  groupKey v1 = groupKey v2 ↔
  Variant.subset (baseVariant v1) = Variant.subset (baseVariant v2) ∧
  Variant.sliceIndex (baseVariant v1) = Variant.sliceIndex (baseVariant v2).
Proof.
  unfold groupKey. split; [|by intros [-> ->]].
  intros [Hsubset Hindex%showN_inj]%key_inj; [done|apply showN_digits..].
Qed.

(** [addToGroup] on the groups of the keys [keys]. *)
Lemma addToGroup_map (G G' : string → list ProcessedVariant)
    (keys : list string) (key : string) (variant : ProcessedVariant) :
  NoDup keys →
  (∀ k, G' k = if decide (k = key) then G k ++ [variant] else G k) →
  (key ∉ keys → G key = []) →
  addToGroup (map (λ k, (k, G k)) keys) key variant
  = map (λ k, (k, G' k)) (Js.setAdd keys key).
Proof.
  intros Hkeys HG'. induction keys as [|k keys IH]; intros Hnew.
  - unfold Js.setAdd. rewrite decide_False by apply not_elem_of_nil.
    simpl. rewrite HG', decide_True by done.
    by rewrite Hnew by apply not_elem_of_nil.
  - apply NoDup_cons in Hkeys as [Hk Hkeys]. simpl.
    destruct (String.eqb_spec k key) as [->|Hne].
    + unfold Js.setAdd. rewrite decide_True by apply list_elem_of_here.
      simpl. rewrite HG', decide_True by done. f_equal.
      apply map_ext_in. intros k' Hk'%list_elem_of_In.
      rewrite HG', decide_False; [done|]. by intros ->.
    + rewrite IH; [|done|].
      * assert (HG : G' k = G k) by by rewrite HG', decide_False.
        unfold Js.setAdd. destruct (decide (key ∈ keys)) as [Hin|Hout].
        -- rewrite decide_True by by apply list_elem_of_further.
           simpl. by rewrite HG.
        -- rewrite decide_False by (intros [?|?]%elem_of_cons; by subst).
           simpl. by rewrite HG.
      * intros Hout. apply Hnew. intros [?|?]%elem_of_cons; [by subst|done].
Qed.

(** The groups: one for every key, in the order in which the keys first
    appear, with the variants of that key in the order of the list. *)
Lemma groupVariants_groups (variants : list ProcessedVariant) :
  groupVariants variants
  = map (λ key, (key, filter (λ v, groupKey v = key) variants))
      (Js.setOf (map groupKey variants)).
Proof.
  unfold groupVariants, Js.setOf.
  induction variants as [|variant variants IH] using rev_ind; [done|].
  rewrite map_app, !fold_left_app. simpl. rewrite IH.
  apply addToGroup_map.
  - apply setOf_NoDup, NoDup_nil_2.
  - intros k. rewrite filter_app. destruct (decide (k = groupKey variant)) as [->|Hne].
    + by rewrite filter_cons_True.
    + rewrite filter_cons_False by done. by rewrite filter_nil, app_nil_r.
  - intros Hnew. clear IH.
    assert (Hall : Forall (λ v, groupKey v ≠ groupKey variant) variants).
    { apply Forall_forall. intros v Hv Hkey. apply Hnew, setOf_spec. right.
      rewrite <- Hkey. by apply list_elem_of_In, in_map, list_elem_of_In. }
    clear Hnew. induction Hall as [|v vs Hv _ IH]; [done|].
    rewrite filter_cons_False; [exact IH|done].
Qed.

Lemma generateFontFace_nonempty (family : string)
    (first : ProcessedVariant) (rest : list ProcessedVariant)
    (subset : SubsetDefinition) :
  generateFontFace family (first :: rest) subset ≠ "" ↔
  unicodeRangeOf subset (Variant.sliceIndex (baseVariant first)) ≠ "".
Proof.
  unfold generateFontFace.
  destruct (unicodeRangeOf subset _); [done|].
  split; [done|]. intros _. by destruct first.
Qed.

Lemma append_not_empty (a b : string) : a +:+ b ≠ "" ↔ a ≠ "" ∨ b ≠ "".
Proof.
  destruct a; [|by split; [left|]]. rewrite append_nil_l.
  split; [by right|]. by intros [|].
Qed.

(** The loop over the groups adds a rule for a group whose subset is
    known and has a unicode range for the slice of the group. *)
Lemma fold_rules (family : string) (subsets : gmap string SubsetDefinition)
    (groups : list (string * list ProcessedVariant)) (css : string) :
  fold_left
    (λ css '(_, group),
       match group with
       | [] => css
       | first :: _ =>
           match subsets !! Variant.subset (baseVariant first) with
           | Some subset => css +:+ generateFontFace family group subset
           | None => css
           end
       end) groups css ≠ "" ↔
  css ≠ "" ∨
  ∃ key first rest subset,
    (key, first :: rest) ∈ groups ∧
    subsets !! Variant.subset (baseVariant first) = Some subset ∧
    unicodeRangeOf subset (Variant.sliceIndex (baseVariant first)) ≠ "".
Proof.
  revert css. induction groups as [|[key group] groups IH]; intros css.
  - simpl. split; [by left|]. intros [|(? & ? & ? & ? & []%elem_of_nil & _)]; done.
  - cbn [fold_left]. rewrite IH. clear IH. split.
    + intros [Hcss|(k & first & rest & subset & Hin & Hsub & Hrange)].
      * destruct group as [|first rest]; [by left|].
        destruct (subsets !! _) as [subset|] eqn:Hsub; [|by left].
        apply append_not_empty in Hcss as [|Hrule]; [by left|].
        apply generateFontFace_nonempty in Hrule. right.
        exists key, first, rest, subset. split; [apply list_elem_of_here|done].
      * right. exists k, first, rest, subset.
        split; [by apply list_elem_of_further|done].
    + intros [Hcss|(k & first & rest & subset & Hin & Hsub & Hrange)].
      * left. destruct group as [|first rest]; [done|].
        destruct (subsets !! _); [|done]. apply append_not_empty. by left.
      * apply elem_of_cons in Hin as [[= <- <-]|Hin].
        -- left. rewrite Hsub. apply append_not_empty. right.
           by apply generateFontFace_nonempty.
        -- right. by exists k, first, rest, subset.
Qed.

(** A style sheet is not empty exactly when one of its variants belongs
    to a known subset with a unicode range for its slice. *)
Lemma generateCSS_emitted (family : string) (variants : list ProcessedVariant)
    (subsets : gmap string SubsetDefinition) :
  generateCSS family variants subsets ≠ "" ↔
  ∃ variant subset,
    variant ∈ variants ∧
    subsets !! Variant.subset (baseVariant variant) = Some subset ∧
    unicodeRangeOf subset (Variant.sliceIndex (baseVariant variant)) ≠ "".
Proof.
  unfold generateCSS. rewrite fold_rules, groupVariants_groups. split.
  - intros [|(key & first & rest & subset & Hin & Hsub & Hrange)]; [done|].
    exists first, subset. split; [|done].
    apply list_elem_of_In, in_map_iff in Hin as (k & [= <- Hgroup] & _).
    assert (Hfirst : first ∈ filter (λ v, groupKey v = k) variants)
      by (rewrite Hgroup; apply list_elem_of_here).
    by apply list_elem_of_filter in Hfirst as [_ ?].
  - intros (variant & subset & Hin & Hsub & Hrange). right.
    assert (Hgroup : variant ∈ filter (λ v, groupKey v = groupKey variant) variants)
      by by apply list_elem_of_filter.
    destruct (filter _ variants) as [|first rest] eqn:Hfilter;
      [by apply elem_of_nil in Hgroup|].
    assert (Hfirst : first ∈ filter (λ v, groupKey v = groupKey variant) variants)
      by (rewrite Hfilter; apply list_elem_of_here).
    apply list_elem_of_filter in Hfirst as [[Hs Hi]%groupKey_inj _].
    exists (groupKey variant), first, rest, subset.
    rewrite Hs, Hi. split; [|done].
    apply list_elem_of_In, in_map_iff. exists (groupKey variant).
    split; [by rewrite Hfilter|].
    apply list_elem_of_In, setOf_spec. right.
    by apply list_elem_of_In, in_map, list_elem_of_In.
Qed.

End GroupFacts.

(** X9.  The rules of a style sheet are grouped by subset and slice
    index: there is one group for every key, in the order in which the
    keys first appear among the variants, and it holds the variants of
    that key in their order; two variants have the same key exactly when
    they agree on the subset and on the slice index. *)
Theorem css_grouping (variants : list ProcessedVariant) :
  Css.groupVariants variants
  = map (λ key, (key, filter (λ v, Css.groupKey v = key) variants))
      (Js.setOf (map Css.groupKey variants)) ∧
  ∀ v1 v2,
    Css.groupKey v1 = Css.groupKey v2 ↔
    Variant.subset (baseVariant v1) = Variant.subset (baseVariant v2) ∧
    Variant.sliceIndex (baseVariant v1) = Variant.sliceIndex (baseVariant v2).
Proof. split; [apply groupVariants_groups|apply groupKey_inj]. Qed.

(** X10.  The style sheet of a weight and a style is not empty exactly
    when some static variant of that weight and style belongs to a subset
    of the subset data that has a unicode range for the slice of the
    variant; the variable style sheet, when some variable variant does. *)
Theorem css_emitted_iff (family : string) (variants : list ProcessedVariant)
    (subsets : gmap string SubsetDefinition) :
  (∀ weight style,
     Css.generateStaticCSS family weight style variants subsets ≠ "" ↔
     ∃ b subset,
       StaticProcessedVariant b ∈ variants ∧
       Variant.weight b = weight ∧ Variant.style b = style ∧
       subsets !! Variant.subset b = Some subset ∧
       Css.unicodeRangeOf subset (Variant.sliceIndex b) ≠ "") ∧
  (Css.generateVariableCSS family variants subsets ≠ "" ↔
   ∃ b variable axisKey subset,
     VariableProcessedVariant b variable axisKey ∈ variants ∧
     subsets !! Variant.subset b = Some subset ∧
     Css.unicodeRangeOf subset (Variant.sliceIndex b) ≠ "").
Proof.
  split; [intros weight style|].
  - unfold Css.generateStaticCSS. rewrite generateCSS_emitted. split.
    + intros (variant & subset & Hin & Hsub & Hrange).
      apply list_elem_of_filter in Hin as [(Hstatic & Hweight & Hstyle) Hin].
      destruct variant as [b|b variable axisKey]; [|done].
      by exists b, subset.
    + intros (b & subset & Hin & Hweight & Hstyle & Hsub & Hrange).
      exists (StaticProcessedVariant b), subset.
      split; [|done]. by apply list_elem_of_filter.
  - unfold Css.generateVariableCSS. rewrite generateCSS_emitted. split.
    + intros (variant & subset & Hin & Hsub & Hrange).
      apply list_elem_of_filter in Hin as [Hvariable Hin].
      destruct variant as [b|b variable axisKey]; [done|].
      by exists b, variable, axisKey, subset.
    + intros (b & variable & axisKey & subset & Hin & Hsub & Hrange).
      exists (VariableProcessedVariant b variable axisKey), subset.
      split; [|done]. by apply list_elem_of_filter.
Qed.

(** ** css.ts and filename.ts: file names in a style sheet *)
Section FilenameFacts.





Lemma append_cancel_r (a b c : string) : a +:+ c = b +:+ c → a = b.
Proof.
  revert b. induction a as [|x a IH]; intros [|y b] Heq; [done|..].
  - apply (f_equal String.length) in Heq.
    rewrite append_nil_l, length_append in Heq. simpl in Heq. lia.
  - apply (f_equal String.length) in Heq.
    rewrite append_nil_l, length_append in Heq. simpl in Heq. lia.
  - rewrite !append_cons in Heq. injection Heq as -> Heq. f_equal. by apply IH.
Qed.

End FilenameFacts.




(** X13.  Two style sheets of a static build have the same file name
    exactly when they have the same weight and are both of the style
    [normal] or both of another style: the sheets of two styles other
    than [normal] at one weight share the name [<weight>-italic.css]. *)
Theorem sheet_name_eq_iff (weight1 weight2 : Z) (style1 style2 : FontStyle) :
  Processor.sheetName weight1 style1 = Processor.sheetName weight2 style2 ↔
  weight1 = weight2 ∧ (style1 = "normal" ↔ style2 = "normal").
Proof.
  unfold Processor.sheetName.
  destruct (String.eqb_spec style1 "normal") as [H1|H1],
    (String.eqb_spec style2 "normal") as [H2|H2].
  - split; [|by intros [-> _]].
    intros Heq%css_name_inj; [|apply showZ_chars..]. by apply showZ_inj in Heq.
  - split; [|intros [_ Hiff]; by apply Hiff in H1].
    intros Heq. symmetry in Heq. by apply css_name_not_italic in Heq; [|apply showZ_chars..].
  - split; [|intros [_ Hiff]; by apply Hiff in H2].
    intros Heq. by apply css_name_not_italic in Heq; [|apply showZ_chars..].
  - split; [|by intros [-> _]].
    intros Heq%append_cancel_r%showZ_inj. done.
Qed.

(** ** processor.ts: targets, axis key and jobs *)
Section PlanningFacts.

Import Processor.

(** A filter and its complement split a list. *)
Lemma filter_partition {A} (P : A → Prop) `{∀ x, Decision (P x)} (l : list A) :
  (length (filter P l) + length (filter (λ x, ¬ P x) l) = length l)%nat ∧
  (Forall P l ↔ filter (λ x, ¬ P x) l = []) ∧
  (Forall P l → filter P l = l).
Proof.
  induction l as [|x l (IHlen & IHall & IHid)]; [by rewrite !filter_nil|].
  destruct (decide (P x)) as [Hx|Hx].
  - rewrite filter_cons_True, filter_cons_False by auto. simpl.
    split; [lia|]. split.
    + rewrite Forall_cons. rewrite <- IHall. tauto.
    + intros [_ Hall]%Forall_cons. by rewrite IHid.
  - rewrite filter_cons_False, filter_cons_True by auto. simpl.
    split; [lia|]. split.
    + rewrite Forall_cons. split; [tauto|done].
    + by intros [? _]%Forall_cons.
Qed.

(** The key of the axes [axes], by their number. *)
Lemma axisKey_of_axes (axes : list string) :
  (let standard := filter (λ axis, axis ∈ standardAxisSet) axes in
   let custom := filter (λ axis, axis ∉ standardAxisSet) axes in
   match standard, custom with
   | [], [] => "wght"
   | _, first :: rest =>
       match standard, rest with
       | [], [] => first
       | _, _ => "full"
       end
   | first :: rest, [] =>
       match rest with
       | [] => first
       | _ => "standard"
       end
   end)
  = match axes with
    | [] => "wght"
    | [axis] => axis
    | _ =>
        if decide (Forall (λ axis, axis ∈ standardAxisSet) axes)
        then "standard" else "full"
    end.
Proof.
  destruct (filter_partition (λ axis, axis ∈ standardAxisSet) axes)
    as (Hlen & Hall & Hid).
  cbv zeta. destruct axes as [|a [|b axes]].
  - done.
  - destruct (decide (a ∈ standardAxisSet)).
    + by rewrite filter_cons_True, filter_cons_False by auto.
    + by rewrite filter_cons_False, filter_cons_True by auto.
  - destruct (decide (Forall _ _)) as [Hstd|Hcustom].
    + rewrite (proj1 Hall Hstd), (Hid Hstd). done.
    + destruct (filter (λ axis, axis ∉ standardAxisSet) (a :: b :: axes))
        as [|first rest]; [by destruct Hcustom; apply Hall|].
      destruct (filter (λ axis, axis ∈ standardAxisSet) (a :: b :: axes)), rest;
        simpl in Hlen; try done; lia.
Qed.

Lemma addFontStyle_fold (fontRefs : list FontRef.t) (acc : list FontStyle) :
  fold_left addFontStyle fontRefs acc
  = fold_left Js.setAdd (map (λ font, (extractFontStyle font).2) fontRefs) acc.
Proof.
  revert acc. induction fontRefs as [|font fontRefs IH]; intros acc; [done|].
  simpl. apply IH.
Qed.

(** The element at a position of a [flatMap] over lists of one length. *)
Lemma flat_map_lookup {A B} (f : A → list B) (l : list A) (n i j : nat)
    (x : A) (y : B) :
  (∀ x, length (f x) = n) → l !! i = Some x → f x !! j = Some y →
  flat_map f l !! (i * n + j)%nat = Some y.
Proof.
  intros Hn. revert i. induction l as [|a l IH]; intros i Hx Hy; [done|].
  change (flat_map f (a :: l)) with (f a ++ flat_map f l).
  destruct i as [|i].
  - injection Hx as ->. by apply lookup_app_l_Some.
  - rewrite lookup_app_r by (rewrite Hn; lia).
    rewrite Hn. replace (S i * n + j - n)%nat with (i * n + j)%nat by lia.
    by apply IH.
Qed.

End PlanningFacts.

(** X14.  The axis key of a variable build: an axis key of the
    configuration that is not empty is taken in lower case; otherwise the
    key is [wght] when no axis is defined, the name of the axis when one
    is defined, and for two or more axes [standard] when all of them are
    standard axes and [full] when a custom axis is among them. *)
Theorem determineAxisKey_cases (variableConfig : VariableAxisConfig)
    (configAxisKey : option string) :
  Processor.determineAxisKey variableConfig configAxisKey
  = match configAxisKey with
    | Some ((String _ _) as key) => Js.toLowerCase key
    | _ =>
        let axes := Processor.definedAxes variableConfig in
        match axes with
        | [] => "wght"
        | [axis] => axis
        | _ =>
            if decide (Forall (λ axis, axis ∈ Processor.standardAxisSet) axes)
            then "standard" else "full"
        end
    end.
Proof.
  unfold Processor.determineAxisKey.
  destruct configAxisKey as [[|c key]|]; [|done|];
    exact (axisKey_of_axes (Processor.definedAxes variableConfig)).
Qed.

(** X15.  The style of a font: [normal] exactly when the font is neither
    italic nor slanted, [italic] exactly when its italic value is
    positive, and in a file name [normal] in the first case and [italic]
    in every other, the oblique styles included. *)
Theorem font_style_of_font (font : FontRef.t) :
  let italicValue :=
    Utils.extractStyleValue (valueOf (FontRef.italic (FontRef.values font))) in
  let slantValue :=
    Utils.extractStyleValue (valueOf (FontRef.slant (FontRef.values font))) in
  let style := (Processor.extractFontStyle font).2 in
  (style = "normal" ↔ (italicValue ≤ 0)%Z ∧ slantValue = 0%Z) ∧
  (style = "italic" ↔ (0 < italicValue)%Z) ∧
  Filename.normalizeStyleForFilename style
  = if decide ((italicValue ≤ 0)%Z ∧ slantValue = 0%Z) then "normal" else "italic".
Proof.
  intros italicValue slantValue style. subst style.
  unfold Processor.extractFontStyle. cbn [snd].
  fold italicValue slantValue.
  destruct (Z.ltb_spec 0 italicValue) as [Hitalic|Hitalic].
  - rewrite decide_False by lia. repeat split; try done; lia.
  - destruct (Z.eqb_spec slantValue 0) as [Hslant|Hslant]; cbn [negb].
    + rewrite decide_True by done. repeat split; try done; lia.
    + rewrite decide_False by tauto.
      unfold Filename.normalizeStyleForFilename.
      rewrite startsWith_append, !append_cons.
      repeat split; try done; lia.
Qed.

(** X16.  When the styles are inferred from the loaded fonts (the config
    is not a static config with a non-empty style list), the styles to
    process are the styles of the fonts, each once, in the order in which
    they first appear: no loaded font is left out for its style. *)
Theorem inferred_styles (fontRefs : list FontRef.t) (config : FontBuildConfig) :
  match config with
  | StaticFontBuildConfig _ _ styles => Processor.hasLength styles = false
  | VariableFontBuildConfig _ _ _ => True
  end →
  let stylesToProcess := (Processor.determineProcessingTargets fontRefs config).2 in
  stylesToProcess
  = Js.setOf (map (λ font, (Processor.extractFontStyle font).2) fontRefs) ∧
  NoDup stylesToProcess ∧
  ∀ style, style ∈ stylesToProcess
           ↔ ∃ font, font ∈ fontRefs ∧ (Processor.extractFontStyle font).2 = style.
Proof.
  intros Hconfig stylesToProcess.
  assert (Hstyles : stylesToProcess
            = Js.setOf (map (λ font, (Processor.extractFontStyle font).2) fontRefs)).
  { subst stylesToProcess. unfold Processor.determineProcessingTargets, Js.setOf.
    rewrite addFontStyle_fold.
    destruct config as [base [[|w ws]|] [[|s ss]|]|base variable axisKey];
      done. }
  rewrite Hstyles. split; [done|]. split.
  - apply setOf_NoDup, NoDup_nil_2.
  - intros style. unfold Js.setOf. rewrite setOf_spec. split.
    + intros [[]%elem_of_nil|Hin].
      apply list_elem_of_In, in_map_iff in Hin as (font & Hstyle & Hin).
      exists font. split; [by apply list_elem_of_In|done].
    + intros (font & Hin & <-). right.
      apply list_elem_of_In, in_map_iff. exists font.
      split; [done|by apply list_elem_of_In].
Qed.

Lemma inferred_styles_witness :
  (Processor.determineProcessingTargets [Sample.interItalic; Sample.interVariable]
     (VariableFontBuildConfig Sample.latinBase Sample.weightAxis None)).2
  = ["italic"; "normal"] ∧
  NoDup ["italic"; "normal"] ∧
  ∀ style, style ∈ ["italic"; "normal"]
           ↔ ∃ font, font ∈ [Sample.interItalic; Sample.interVariable] ∧
                     (Processor.extractFontStyle font).2 = style.
Proof.
  exact (inferred_styles [Sample.interItalic; Sample.interVariable]
           (VariableFontBuildConfig Sample.latinBase Sample.weightAxis None) I).
Defined.

(** X17.  The jobs of a subset are laid out slice by slice and, within a
    slice, format by format: with [n] formats, the job at position
    [i * n + j] is that of slice [i] in format [j], and there are as many
    jobs as slices times formats; a subset that is not sliced counts as
    one slice of index 0. *)
Theorem createJobsForSubset_layout (font : FontRef.t) (subsetName : string)
    (subsetDef : SubsetDefinition) (weight : Z) (style : FontStyle)
    (formats : list Format) (targetWeight : option Z)
    (variableConfig : option VariableAxisConfig) (axisKey : option string) :
  let slices :=
    match subsetDef with
    | sliced _ slices =>
        map (λ slice, (Slice.codepoints slice, Slice.index slice)) slices
    | range _ _ codepoints => [(codepoints, 0)]
    end in
  let jobs :=
    Processor.createJobsForSubset font subsetName subsetDef weight style formats
      targetWeight variableConfig axisKey in
  length jobs = (length slices * length formats)%nat ∧
  ∀ i j codepoints sliceIndex format,
    slices !! i = Some (codepoints, sliceIndex) → formats !! j = Some format →
    jobs !! (i * length formats + j)%nat
    = Some {| Processor.Job.font := font;
              Processor.Job.subsetName := subsetName;
              Processor.Job.codepoints := codepoints;
              Processor.Job.sliceIndex := sliceIndex;
              Processor.Job.weight := weight;
              Processor.Job.style := style;
              Processor.Job.format := format;
              Processor.Job.targetWeight := targetWeight;
              Processor.Job.variableConfig := variableConfig;
              Processor.Job.axisKey := axisKey |}.
Proof.
  intros slices jobs. subst jobs. unfold Processor.createJobsForSubset.
  fold slices. split.
  - apply flat_map_constant_length. intros [codepoints sliceIndex] _.
    by rewrite length_map.
  - intros i j codepoints sliceIndex format Hslice Hformat.
    eapply flat_map_lookup; [|exact Hslice|].
    + intros [cps idx]. by rewrite length_map.
    + simpl. by rewrite list_lookup_fmap, Hformat.
Qed.

(** ** processor.ts: the jobs and the variants of a build *)
Section VariantFacts.

Context {Error : Type}.
Variable subsetFont : FontRef.t → SubsetSettings → Error + bytes.
Variable compressFromTTF : bytes → Format → Z → Error + bytes.

Import Processor.

Abbreviation processSliceOf := (processSliceOf subsetFont compressFromTTF).
Abbreviation processJob := (processJob subsetFont compressFromTTF).
Abbreviation variantsOf := (variantsOf subsetFont compressFromTTF).

(** The jobs of a static build. *)
Lemma static_jobs fontRefs base weights styles subsets weightsToProcess
    stylesToProcess (job : ProcessingJob) :
  job ∈ allProcessingJobs fontRefs (StaticFontBuildConfig base weights styles)
          subsets weightsToProcess stylesToProcess →
  Job.font job ∈ fontRefs ∧
  Job.weight job ∈ weightsToProcess ∧
  canProduce (Job.font job) (Job.weight job) = true ∧
  Job.style job = (extractFontStyle (Job.font job)).2 ∧
  Job.style job ∈ stylesToProcess ∧
  Job.subsetName job ∈ Config.subsets base ∧
  Job.format job ∈ Config.formats base ∧
  Job.targetWeight job = Some (Job.weight job) ∧
  Job.variableConfig job = None ∧
  Job.axisKey job = None.
Proof.
  unfold allProcessingJobs. rewrite elem_of_flat_map.
  intros (font & Hfont & Hjob).
  destruct (extractFontStyle font) as [fontWeight fontStyle] eqn:Hstyle.
  destruct (decide (fontStyle ∈ stylesToProcess)) as [Hin|];
    [|by apply elem_of_nil in Hjob].
  apply elem_of_flat_map in Hjob as ([[weight style] targetWeight] & Hw & Hjob).
  apply list_elem_of_fmap in Hw as (w & [= -> -> ->] & Hw).
  apply list_elem_of_filter in Hw as [Hcan Hw].
  apply elem_of_flat_map in Hjob as (subsetName & Hname & Hjob).
  destruct (subsets !! subsetName); [|by apply elem_of_nil in Hjob].
  apply createJobsForSubset_fields in Hjob
    as (-> & -> & -> & -> & Hformat & -> & -> & ->).
  by rewrite Hstyle.
Qed.

(** The jobs of a variable build: weight and style are those of the font. *)
Lemma variable_jobs fontRefs base variable axisKey subsets weightsToProcess
    stylesToProcess (job : ProcessingJob) :
  job ∈ allProcessingJobs fontRefs (VariableFontBuildConfig base variable axisKey)
          subsets weightsToProcess stylesToProcess →
  (Job.weight job, Job.style job) = extractFontStyle (Job.font job) ∧
  Job.style job ∈ stylesToProcess ∧
  Job.subsetName job ∈ Config.subsets base ∧
  Job.format job ∈ Config.formats base.
Proof.
  unfold allProcessingJobs. rewrite elem_of_flat_map.
  intros (font & Hfont & Hjob).
  destruct (extractFontStyle font) as [fontWeight fontStyle] eqn:Hstyle.
  destruct (decide (fontStyle ∈ stylesToProcess)) as [Hin|];
    [|by apply elem_of_nil in Hjob].
  apply elem_of_flat_map in Hjob as ([[weight style] targetWeight] & Hw & Hjob).
  apply list_elem_of_singleton in Hw. injection Hw as -> -> ->.
  apply elem_of_flat_map in Hjob as (subsetName & Hname & Hjob).
  destruct (subsets !! subsetName); [|by apply elem_of_nil in Hjob].
  apply createJobsForSubset_fields in Hjob
    as (-> & -> & -> & -> & Hformat & _).
  by rewrite Hstyle.
Qed.

(** The slice of a job, by the definition of its subset. *)
Lemma job_slice fontRefs config subsets weightsToProcess stylesToProcess
    (job : ProcessingJob) :
  job ∈ allProcessingJobs fontRefs config subsets weightsToProcess
          stylesToProcess →
  ∃ subsetDef,
    subsets !! Job.subsetName job = Some subsetDef ∧
    match subsetDef with
    | range _ _ codepoints =>
        Job.sliceIndex job = 0 ∧ Job.codepoints job = codepoints
    | sliced _ slices =>
        ∃ slice, slice ∈ slices ∧ Job.sliceIndex job = Slice.index slice ∧
                 Job.codepoints job = Slice.codepoints slice
    end.
Proof.
  intros (subsetDef & w & s & tw & vc & ak & _ & Hdef & Hjob)%allProcessingJobs_inv.
  exists subsetDef. split; [done|]. by apply createJobsForSubset_slice in Hjob.
Qed.

(** The variant of a job that succeeds. *)
Lemma processSliceOf_variant (ctx : ProcessingContext) (job : ProcessingJob)
    (variant : ProcessedVariant) :
  processSliceOf ctx job = inr variant →
  ∃ content,
    variant =
      match Job.variableConfig job, Job.axisKey job with
      | Some variable, Some ((String _ _) as axisKey) =>
          VariableProcessedVariant
            {| Variant.weight := Job.weight job;
               Variant.style := Job.style job;
               Variant.subset := Job.subsetName job;
               Variant.sliceIndex := Job.sliceIndex job;
               Variant.filename :=
                 Filename.generateVariableFilename (familyId ctx)
                   (Job.subsetName job) axisKey (Job.style job)
                   (Job.sliceIndex job) (Job.format job);
               Variant.content := content |}
            variable axisKey
      | _, _ =>
          StaticProcessedVariant
            {| Variant.weight := Job.weight job;
               Variant.style := Job.style job;
               Variant.subset := Job.subsetName job;
               Variant.sliceIndex := Job.sliceIndex job;
               Variant.filename :=
                 Filename.generateStaticFilename (familyId ctx)
                   (Job.subsetName job) (Job.weight job) (Job.style job)
                   (Job.sliceIndex job) (Job.format job);
               Variant.content := content |}
      end.
Proof.
  unfold Processor.processSliceOf, processSlice, awaitThen.
  destruct (subsetFont _ _) as [|subsettedFont]; [done|].
  destruct (compressFromTTF _ _ _) as [|content]; [done|].
  destruct (Job.variableConfig job), (Job.axisKey job) as [[|c key]|];
    intros [= <-]; by exists content.
Qed.

(** The variants of a list of jobs come from its jobs. *)
Lemma elem_of_variantsOf (ctx : ProcessingContext) (jobs : list ProcessingJob)
    (variant : ProcessedVariant) :
  variant ∈ variantsOf ctx jobs ↔
  ∃ job, job ∈ jobs ∧ processSliceOf ctx job = inr variant.
Proof.
  unfold Processor.variantsOf. rewrite list_elem_of_omap.
  split; intros (job & Hjob & Hvariant); exists job; (split; [done|]);
    unfold Processor.processJob in *;
    destruct (Processor.processSliceOf _ _ ctx job); simpl in *; congruence.
Qed.

(** The axis key is not empty when no defined axis has an empty name. *)
Lemma determineAxisKey_not_empty (variable : VariableAxisConfig)
    (axisKey : option string) :
  "" ∉ definedAxes variable → determineAxisKey variable axisKey ≠ "".
Proof.
  intros Hnames. unfold determineAxisKey.
  destruct axisKey as [[|c key]|]; [|done|];
    change (omap _ variable) with (definedAxes variable);
    pose proof (axisKey_of_axes (definedAxes variable)) as Hkey;
    cbv zeta in Hkey; rewrite Hkey;
    (destruct (definedAxes variable) as [|a [|a' axes]]; [done| |by destruct (decide _)]);
    intros ->; apply Hnames, list_elem_of_here.
Qed.

End VariantFacts.

(** X18.  The jobs of a static build: a font is planned for the weights
    to process that it can produce, all of them when it has a weight
    axis and only its own weight otherwise, in its own style, which is
    among the styles to process; the target weight is the weight of the
    job and no axis configuration is passed on, so that the subsetting
    call pins the weight axis of a font that has one to the weight of the
    job and constrains nothing else. *)
Theorem static_build_job fontRefs base weights styles subsets weightsToProcess
    stylesToProcess (job : Processor.ProcessingJob) :
  job ∈ Processor.allProcessingJobs fontRefs
          (StaticFontBuildConfig base weights styles) subsets weightsToProcess
          stylesToProcess →
  Processor.Job.font job ∈ fontRefs ∧
  Processor.Job.weight job ∈ weightsToProcess ∧
  Processor.Job.style job
  = (Processor.extractFontStyle (Processor.Job.font job)).2 ∧
  Processor.Job.style job ∈ stylesToProcess ∧
  Processor.Job.targetWeight job = Some (Processor.Job.weight job) ∧
  Processor.Job.variableConfig job = None ∧
  Processor.Job.axisKey job = None ∧
  match FontRef.weight (FontRef.values (Processor.Job.font job)) with
  | singleValue value =>
      Processor.Job.weight job = value ∧
      Processor.buildAxisValues (Processor.Job.font job)
        (Processor.Job.variableConfig job) (Processor.Job.targetWeight job)
      = []
  | variableValue _ =>
      Processor.buildAxisValues (Processor.Job.font job)
        (Processor.Job.variableConfig job) (Processor.Job.targetWeight job)
      = if decide (Processor.Job.weight job = 0%Z) then []
        else [axisSingle "wght" (Processor.Job.weight job)]
  end.
Proof.
  intros (Hfont & Hweight & Hcan & Hstyle & Hin & _ & _ & Htarget & Hconfig & Hkey)
    %static_jobs.
  repeat (split; [done|]). rewrite Hconfig, Htarget.
  unfold Processor.buildAxisValues, Processor.canProduce in *.
  destruct (FontRef.weight _) as [value|value].
  - split; [|done]. by apply Z.eqb_eq in Hcan.
  - destruct (Z.eqb_spec (Processor.Job.weight job) 0) as [Hzero|Hzero].
    + by rewrite decide_True.
    + by rewrite decide_False.
Qed.

Lemma static_build_job_witness :
  Sample.interVariable ∈ [Sample.interVariable] ∧
  500%Z ∈ [300; 500]%Z ∧
  "normal" = (Processor.extractFontStyle Sample.interVariable).2 ∧
  "normal" ∈ ["normal"] ∧
  Some 500%Z = Some 500%Z ∧
  None = (None : option VariableAxisConfig) ∧
  None = (None : option string) ∧
  Processor.buildAxisValues Sample.interVariable None (Some 500%Z)
  = if decide (500%Z = 0%Z) then [] else [axisSingle "wght" 500%Z].
Proof.
  apply (static_build_job [Sample.interVariable] Sample.latinBase
           (Some [300; 500]%Z) (Some ["normal"]) Sample.latinSubsets
           [300; 500]%Z ["normal"] Sample.staticJob).
  vm_compute. apply list_elem_of_further, list_elem_of_here.
Defined.

(** X19.  Every variant of a static build is a static variant: its weight
    is one of the weights to process, its style one of the styles to
    process, its subset a requested subset with an entry in the subset
    data, its slice index 0 for a range subset and the index of a slice
    for a sliced one, and its file name the one [generateStaticFilename]
    gives for the family identifier of the context and these values in
    one of the requested formats. *)
Theorem static_build_variants {Error : Type}
    (subsetFont : FontRef.t → SubsetSettings → Error + bytes)
    (compressFromTTF : bytes → Format → Z → Error + bytes)
    (ctx : Processor.ProcessingContext) fontRefs base weights styles subsets
    weightsToProcess stylesToProcess (variant : ProcessedVariant) :
  variant ∈ Processor.variantsOf subsetFont compressFromTTF ctx
              (Processor.allProcessingJobs fontRefs
                 (StaticFontBuildConfig base weights styles) subsets
                 weightsToProcess stylesToProcess) →
  ∃ b format subsetDef,
    variant = StaticProcessedVariant b ∧
    Variant.weight b ∈ weightsToProcess ∧
    Variant.style b ∈ stylesToProcess ∧
    Variant.subset b ∈ Config.subsets base ∧
    format ∈ Config.formats base ∧
    subsets !! Variant.subset b = Some subsetDef ∧
    match subsetDef with
    | range _ _ _ => Variant.sliceIndex b = 0
    | sliced _ slices =>
        ∃ slice, slice ∈ slices ∧ Slice.index slice = Variant.sliceIndex b
    end ∧
    Variant.filename b
    = Filename.generateStaticFilename (Processor.familyId ctx)
        (Variant.subset b) (Variant.weight b) (Variant.style b)
        (Variant.sliceIndex b) format.
Proof.
  intros (job & Hjob & Hvariant)%elem_of_variantsOf.
  apply processSliceOf_variant in Hvariant as (content & ->).
  pose proof (job_slice _ _ _ _ _ _ Hjob) as (subsetDef & Hdef & Hslice).
  apply static_jobs in Hjob
    as (_ & Hweight & _ & _ & Hstyle & Hname & Hformat & _ & -> & _).
  eexists _, (Processor.Job.format job), subsetDef.
  split; [reflexivity|]. simpl. repeat (split; [done|]). split; [|done].
  destruct subsetDef as [name unicodeRange codepoints|name slices].
  - by destruct Hslice.
  - destruct Hslice as (slice & Hin & Hindex & _). by exists slice.
Qed.

Lemma static_build_variants_witness :
  ∃ b format subsetDef,
    Sample.staticLatin500 = StaticProcessedVariant b ∧
    Variant.weight b ∈ [300; 500]%Z ∧
    Variant.style b ∈ ["normal"] ∧
    Variant.subset b ∈ ["latin"] ∧
    format ∈ [woff2] ∧
    Sample.latinSubsets !! Variant.subset b = Some subsetDef ∧
    match subsetDef with
    | range _ _ _ => Variant.sliceIndex b = 0
    | sliced _ slices =>
        ∃ slice, slice ∈ slices ∧ Slice.index slice = Variant.sliceIndex b
    end ∧
    Variant.filename b
    = Filename.generateStaticFilename "inter" (Variant.subset b)
        (Variant.weight b) (Variant.style b) (Variant.sliceIndex b) format.
Proof.
  apply (static_build_variants Sample.subsetOk Sample.compressOk
           Sample.staticCtx [Sample.interVariable] Sample.latinBase
           (Some [300; 500]%Z) (Some ["normal"]) Sample.latinSubsets
           [300; 500]%Z ["normal"] Sample.staticLatin500).
  vm_compute. apply list_elem_of_further, list_elem_of_here.
Defined.

(** X20.  In a variable build whose defined axes all have a name, every
    variant is a variable variant that carries the axis configuration and
    the axis key of the build; its weight and its style are those of one
    of the loaded fonts, and its file name is the one
    [generateVariableFilename] gives for the family identifier of the
    context, the subset, the axis key, the style and the slice index in
    one of the requested formats. *)
Theorem variable_build_variants {Error : Type}
    (subsetFont : FontRef.t → SubsetSettings → Error + bytes)
    (compressFromTTF : bytes → Format → Z → Error + bytes)
    (ctx : Processor.ProcessingContext) fontRefs base variable axisKey subsets
    weightsToProcess stylesToProcess (variant : ProcessedVariant) :
  "" ∉ Processor.definedAxes variable →
  variant ∈ Processor.variantsOf subsetFont compressFromTTF ctx
              (Processor.allProcessingJobs fontRefs
                 (VariableFontBuildConfig base variable axisKey) subsets
                 weightsToProcess stylesToProcess) →
  ∃ b format font,
    variant
    = VariableProcessedVariant b variable
        (Processor.determineAxisKey variable axisKey) ∧
    font ∈ fontRefs ∧
    (Variant.weight b, Variant.style b) = Processor.extractFontStyle font ∧
    Variant.style b ∈ stylesToProcess ∧
    Variant.subset b ∈ Config.subsets base ∧
    format ∈ Config.formats base ∧
    Variant.filename b
    = Filename.generateVariableFilename (Processor.familyId ctx)
        (Variant.subset b) (Processor.determineAxisKey variable axisKey)
        (Variant.style b) (Variant.sliceIndex b) format.
Proof.
  intros Hnames (job & Hjob & Hvariant)%elem_of_variantsOf.
  apply processSliceOf_variant in Hvariant as (content & ->).
  pose proof (variable_build_jobs _ _ _ _ _ _ _ _ Hjob)
    as (Hfont & -> & _ & ->).
  apply variable_jobs in Hjob as (Hstyle & Hin & Hname & Hformat).
  pose proof (determineAxisKey_not_empty variable axisKey Hnames) as Hkey.
  destruct (Processor.determineAxisKey variable axisKey) as [|c key]; [done|].
  eexists _, (Processor.Job.format job), (Processor.Job.font job).
  split; [reflexivity|]. simpl. by repeat (split; [done|]).
Qed.

Lemma variable_build_variants_witness :
  ∃ b format font,
    Sample.variableLatin Sample.weightAxis "wght" "inter-latin-wght-normal.woff2"
    = VariableProcessedVariant b Sample.weightAxis
        (Processor.determineAxisKey Sample.weightAxis None) ∧
    font ∈ [Sample.interVariable] ∧
    (Variant.weight b, Variant.style b) = Processor.extractFontStyle font ∧
    Variant.style b ∈ ["normal"] ∧
    Variant.subset b ∈ ["latin"] ∧
    format ∈ [woff2] ∧
    Variant.filename b
    = Filename.generateVariableFilename "inter" (Variant.subset b)
        (Processor.determineAxisKey Sample.weightAxis None)
        (Variant.style b) (Variant.sliceIndex b) format.
Proof.
  apply (variable_build_variants Sample.subsetOk Sample.compressOk
           Sample.variableCtx [Sample.interVariable] Sample.latinBase
           Sample.weightAxis None Sample.latinSubsets [] ["normal"]
           (Sample.variableLatin Sample.weightAxis "wght"
              "inter-latin-wght-normal.woff2")).
  - vm_compute. by intros [[=]|[]%elem_of_nil]%elem_of_cons.
  - vm_compute. apply list_elem_of_here.
Defined.

(** ** processor.ts: the package of a build *)
Section PackageFacts.

Context {Error : Type} `{!RuntimeErrors Error}.
Variable loadFonts : list bytes → Error + list FontRef.t.
Variable subsetFont : FontRef.t → SubsetSettings → Error + bytes.
Variable compressFromTTF : bytes → Format → Z → Error + bytes.
Variable completionOrder :
  list Processor.ProcessingJob → list Processor.ProcessingJob.
Hypothesis completionOrder_perm : ∀ jobs, completionOrder jobs ≡ₚ jobs.

Import Processor.

(** Every job gives one variant or one warning. *)
Lemma outcomes_count (ctx : ProcessingContext) (jobs : list ProcessingJob) :
  (length (omap fst (map (processJob subsetFont compressFromTTF ctx) jobs)) +
   length (concat (map snd (map (processJob subsetFont compressFromTTF ctx) jobs)))
   = length jobs)%nat.
Proof.
  induction jobs as [|job jobs IH]; [done|].
  pose proof (processJob_outcome subsetFont compressFromTTF ctx job) as Hjob.
  rewrite !map_cons. cbn [omap list_omap concat].
  destruct (Processor.processSliceOf _ _ ctx job); rewrite Hjob; simpl in *; lia.
Qed.

(** X21.  When the fonts have loaded and the requested subsets are read
    without an exception and without [NaN], every planned job is
    accounted for in the result of the build: the package holds one font
    file for every job that succeeded, and the log one warning for every
    job that failed, next to one warning for every requested subset
    without content. *)
Theorem every_job_accounted (fontBuffers : list bytes)
    (config : FontBuildConfig) (fontRefs : list FontRef.t) :
  loadFonts fontBuffers = inr fontRefs →
  Subsets.sourcesInScope config = true →
  ∃ package log,
    buildFont loadFonts subsetFont compressFromTTF completionOrder
      fontBuffers config
    = inr (package, log) ∧
    let subsets := (Subsets.generateSubsetData (Error := Error) config).1 in
    let targets := determineProcessingTargets fontRefs config in
    let jobs := allProcessingJobs fontRefs config subsets targets.1 targets.2 in
    (length (fonts package) + length log
     = length jobs +
       length (filter (λ name,
                         Subsets.noContent
                           (Config.subsetSources (baseOf config)) name = true)
                 (Config.subsets (baseOf config))))%nat.
Proof.
  intros Hload Hscope. unfold buildFont. rewrite Hload. cbn [awaitThen].
  rewrite (callGenerateSubsetData_returns config Hscope). cbn [awaitThen].
  pose proof (loadSubset_log (Error := Error)
                (Config.subsetSources (baseOf config))
                (Config.subsets (baseOf config)) (∅, [])) as Hlog.
  fold (Subsets.generateSubsetData (Error := Error) config) in Hlog.
  destruct (Subsets.generateSubsetData config) as [subsets subsetLog].
  destruct (determineProcessingTargets fontRefs config) as [ws ss].
  eexists _, _. split; [reflexivity|]. cbn [fonts fst snd] in *.
  rewrite length_map, length_app, Hlog. cbn [app]. rewrite length_map.
  unfold runJobs.
  pose proof (outcomes_count
                {| familyId := Utils.normalizeKebabCase (Config.family (baseOf config));
                   Processor.config := config; subsetsOf := subsets |}
                (completionOrder (allProcessingJobs fontRefs config subsets ws ss)))
    as Hcount.
  rewrite (Permutation_length (completionOrder_perm _)) in Hcount. lia.
Qed.

(** X22.  The build rejects in two cases, and in no other: when
    [loadFonts] rejects, with the error of [loadFonts] as it is; and when
    the fonts load and the configuration requests a subset whose name
    [Object.prototype] has and the sources do not have themselves (a
    subset [constructor] without source text, say), with the [TypeError]
    that [generateSubsetData] throws on the inherited member. *)
Theorem buildFont_rejects_iff (fontBuffers : list bytes)
    (config : FontBuildConfig) (error : Error) :
  buildFont loadFonts subsetFont compressFromTTF completionOrder
    fontBuffers config
  = inl error ↔
  loadFonts fontBuffers = inl error ∨
  ((∃ fontRefs, loadFonts fontBuffers = inr fontRefs) ∧
   error = typeError ∧
   ∃ name, name ∈ Config.subsets (baseOf config) ∧
           Config.subsetSources (baseOf config) !! name = None ∧
           name ∈ Js.objectPrototypeMembers).
Proof.
  unfold buildFont.
  destruct (loadFonts fontBuffers) as [e|fontRefs]; cbn [awaitThen].
  { split; [intros [= ->]; by left|].
    intros [[= ->]|[[fontRefs [=]] _]]. done. }
  rewrite <- callGenerateSubsetData_throws.
  destruct (Subsets.callGenerateSubsetData config) as [e|[subsets subsetLog]];
    cbn [awaitThen].
  - split.
    + intros [= ->]. right. split; [by exists fontRefs|done].
    + intros [[=]|[_ [= ->]]]. done.
  - destruct (determineProcessingTargets fontRefs config) as [ws ss].
    split; [done|]. by intros [[=]|[_ [=]]].
Qed.

End PackageFacts.

Lemma buildFont_rejects_iff_witness :
  Processor.buildFont Sample.loadVariable Sample.subsetOk Sample.compressOk
    (λ jobs, jobs) [] Sample.constructorConfig
  = inl ().
Proof.
  apply (buildFont_rejects_iff Sample.loadVariable Sample.subsetOk
           Sample.compressOk (λ jobs, jobs) [] Sample.constructorConfig ()).
  right. split; [by exists [Sample.interVariable]|]. split; [reflexivity|].
  exists "constructor". split; [apply list_elem_of_here|].
  split; [reflexivity|]. apply list_elem_of_here.
Defined.

Lemma every_job_accounted_witness :
  ∃ package log,
    Processor.buildFont Sample.loadVariable Sample.subsetOk
      Sample.compressNoWoff (@rev _) [] Sample.twoFormatConfig
    = inr (package, log) ∧
    (length (fonts package) + length log = 2 + 0)%nat.
Proof.
  destruct (every_job_accounted Sample.loadVariable Sample.subsetOk
              Sample.compressNoWoff (@rev _)
              (λ jobs, Permutation_sym (Permutation_rev jobs))
              [] Sample.twoFormatConfig [Sample.interVariable] eq_refl eq_refl)
    as (package & log & Hbuild & Hcount).
  exists package, log. split; [exact Hbuild|].
  vm_compute in Hcount |- *. exact Hcount.
Defined.

(** X23.  A variable build has at most one style sheet, [index.css] with
    the variable rules, and it has that sheet exactly when some variable
    variant belongs to a subset of the subset data that has a unicode
    range for the slice of the variant. *)
Theorem variable_css_assets (ctx : Processor.ProcessingContext)
    (base : BaseFontConfig) (variable : VariableAxisConfig)
    (axisKey : option string) (allVariants : list ProcessedVariant)
    (weightsToProcess : list Z) (stylesToProcess : list FontStyle) :
  Processor.config ctx = VariableFontBuildConfig base variable axisKey →
  let cssContent :=
    Css.generateVariableCSS (Config.family base) allVariants
      (Processor.subsetsOf ctx) in
  let cssAssets :=
    Processor.generateAllCssAssets ctx allVariants weightsToProcess
      stylesToProcess in
  (cssAssets = [] ∨
   cssAssets = [{| assetFilename := "index.css";
                   assetContent := Processor.encode cssContent |}]) ∧
  (cssAssets ≠ [] ↔
   ∃ b variable' key subset,
     VariableProcessedVariant b variable' key ∈ allVariants ∧
     Processor.subsetsOf ctx !! Variant.subset b = Some subset ∧
     Css.unicodeRangeOf subset (Variant.sliceIndex b) ≠ "").
Proof.
  intros Hconfig cssContent cssAssets.
  assert (Hassets : cssAssets
            = match cssContent with
              | EmptyString => []
              | _ => [{| assetFilename := "index.css";
                         assetContent := Processor.encode cssContent |}]
              end).
  { subst cssAssets. unfold Processor.generateAllCssAssets. by rewrite Hconfig. }
  assert (Hemitted : cssContent ≠ "" ↔
            ∃ b variable' key subset,
              VariableProcessedVariant b variable' key ∈ allVariants ∧
              Processor.subsetsOf ctx !! Variant.subset b = Some subset ∧
              Css.unicodeRangeOf subset (Variant.sliceIndex b) ≠ "").
  { subst cssContent. unfold Css.generateVariableCSS.
    rewrite generateCSS_emitted. split.
    - intros (variant & subset & [Hvariable Hin]%list_elem_of_filter & Hsub & Hrange).
      destruct variant as [b|b variable' key]; [done|].
      by exists b, variable', key, subset.
    - intros (b & variable' & key & subset & Hin & Hsub & Hrange).
      exists (VariableProcessedVariant b variable' key), subset.
      split; [|done]. by apply list_elem_of_filter. }
  rewrite Hassets, <- Hemitted. destruct cssContent; split; auto; split; done.
Qed.

Lemma variable_css_assets_witness :
  let cssContent :=
    Css.generateVariableCSS "Inter"
      [Sample.variableLatin Sample.weightAxis "wght" "inter-latin-wght-normal.woff2"]
      Sample.latinSubsets in
  let cssAssets :=
    Processor.generateAllCssAssets Sample.variableCtx
      [Sample.variableLatin Sample.weightAxis "wght" "inter-latin-wght-normal.woff2"]
      [] ["normal"] in
  (cssAssets = [] ∨
   cssAssets = [{| assetFilename := "index.css";
                   assetContent := Processor.encode cssContent |}]) ∧
  (cssAssets ≠ [] ↔
   ∃ b variable' key subset,
     VariableProcessedVariant b variable' key
     ∈ [Sample.variableLatin Sample.weightAxis "wght"
          "inter-latin-wght-normal.woff2"] ∧
     Sample.latinSubsets !! Variant.subset b = Some subset ∧
     Css.unicodeRangeOf subset (Variant.sliceIndex b) ≠ "").
Proof.
  exact (variable_css_assets Sample.variableCtx Sample.latinBase
           Sample.weightAxis None
           [Sample.variableLatin Sample.weightAxis "wght"
              "inter-latin-wght-normal.woff2"]
           [] ["normal"] eq_refl).
Defined.
